(** * Changelog generator ([.github/workflows/changelog.py])

    A shallow embedding of the version-diff and changelog-composition code:
    tag selection ([get_tags]), package extraction and normalisation
    ([get_packages], [get_versions]), group reconciliation
    ([get_package_groups]), the diff engine ([calculate_changes]) and the
    renderer ([generate_changelog]), followed by the properties proved about
    them.

    Conventions of the embedding.
    - A Python [str] is a Rocq [string], read as the UTF-8 bytes of the text.
      Concatenation, equality, prefix/suffix/substring tests and the
      code-point order of [sorted] are the same on UTF-8 bytes as on code
      points.  The digit class [\d] and the letter class [[a-z]] are taken on
      ASCII, which is the alphabet of registry tags.
    - A Python [dict] is an insertion-ordered association list ([dict V]).
    - A Python [set] of strings is a [gset string]; the order in which a
      [for] loop, [list(..)] or [sorted(..)] visits it is not fixed by the
      language and is taken from a [SetOrder].
    - Exceptions are values of [exn]; a function that can raise returns a
      [result].
    - The [re] engine (for the pattern built from the target), the registry,
      [git] and the clock formatting are collaborators taken as parameters. *)

From Stdlib Require Import Ascii.
From stdpp Require Import base option list strings gmap sorting.

#[local] Set Warnings "-clear-no-such-hyp".

(** ** Python primitives *)

Module Py.

Inductive exn : Type :=
| StopIteration
| AssertionError (msg : string)
| KeyError (key : string)
| IndexError
| ValueError
| ReError (pattern : string)
| TypeError
| AttributeError.

Inductive result (A : Type) : Type :=
| Ok (a : A)
| Raise (e : exn).
Global Arguments Ok {A} a.
Global Arguments Raise {A} e.

Global Instance result_ret : MRet result := fun _ a => Ok a.
Global Instance result_bind : MBind result := fun _ _ f m =>
  match m with
  | Ok a => f a
  | Raise e => Raise e
  end.

(** [try: m except Exception: d] *)
Definition try_except {A} (m : result A) (d : A) : A :=
  match m with
  | Ok a => a
  | Raise _ => d
  end.

Definition is_ok {A} (m : result A) : bool :=
  match m with
  | Ok _ => true
  | Raise _ => false
  end.

(** *** Strings *)

Definition nl : string := String "010"%char "".

Definition is_digit (c : ascii) : bool :=
  let n := N_of_ascii c in ((48 <=? n) && (n <=? 57))%N.

Definition is_lower (c : ascii) : bool :=
  let n := N_of_ascii c in ((97 <=? n) && (n <=? 122))%N.

Definition is_upper (c : ascii) : bool :=
  let n := N_of_ascii c in ((65 <=? n) && (n <=? 90))%N.

(** [s.startswith(p)] *)
Fixpoint startswith (s p : string) : bool :=
  match p, s with
  | "", _ => true
  | String a p', String b s' => if Ascii.eqb a b then startswith s' p' else false
  | String _ _, "" => false
  end.

(** [s.endswith(p)] *)
Definition endswith (s p : string) : bool :=
  startswith (String.rev s) (String.rev p).

(** [p in s] on strings: [p] occurs somewhere in [s]. *)
Fixpoint contains (s p : string) : bool :=
  startswith s p ||
  match s with
  | "" => false
  | String _ s' => contains s' p
  end.

(** [s.lower()] and [s.capitalize()] *)
Definition lower_char (c : ascii) : ascii :=
  if is_upper c then ascii_of_N (N_of_ascii c + 32) else c.
Definition upper_char (c : ascii) : ascii :=
  if is_lower c then ascii_of_N (N_of_ascii c - 32) else c.

Fixpoint str_lower (s : string) : string :=
  match s with
  | "" => ""
  | String c s' => String (lower_char c) (str_lower s')
  end.

Definition str_capitalize (s : string) : string :=
  match s with
  | "" => ""
  | String c s' => String (upper_char c) (str_lower s')
  end.

(** [s[:n]] *)
Definition str_take (n : nat) (s : string) : string := String.substring 0 n s.

(** [s.replace(old, new)]: the occurrences of [old] are found from left
    to right and do not overlap; [skip] counts the characters of a found
    occurrence still to be passed over. *)
Fixpoint str_replace_go (old new : string) (skip : nat) (s : string)
    : string :=
  match s with
  | "" => ""
  | String c s' =>
      match skip with
      | S k => str_replace_go old new k s'
      | 0 =>
          if startswith s old
          then new +:+ str_replace_go old new (String.length old - 1) s'
          else String c (str_replace_go old new 0 s')
      end
  end.

Fixpoint str_intersperse (new s : string) : string :=
  match s with
  | "" => new
  | String c s' => new +:+ String c (str_intersperse new s')
  end.

Definition str_replace (s old new : string) : string :=
  match old with
  | "" => str_intersperse new s
  | String _ _ => str_replace_go old new 0 s
  end.

(** [s.split(sep)] for a separator of one character; [cur] holds the
    current field in reverse. *)
Fixpoint str_split_go (sep : ascii) (cur : string) (s : string)
    : list string :=
  match s with
  | "" => [String.rev cur]
  | String c s' =>
      if Ascii.eqb c sep then String.rev cur :: str_split_go sep "" s'
      else str_split_go sep (String c cur) s'
  end.

Definition str_split (s : string) (sep : ascii) : list string :=
  str_split_go sep "" s.

(** Truth value of an optional string: [None] and [""] are false. *)
Definition truthy (s : option string) : bool :=
  match s with
  | Some (String _ _) => true
  | _ => false
  end.

(** *** Dictionaries, in insertion order *)

Abbreviation dict V := (list (string * V)).

Fixpoint dict_get {V} (d : dict V) (k : string) : option V :=
  match d with
  | [] => None
  | (k', v) :: d' => if decide (k = k') then Some v else dict_get d' k
  end.

(** [k in d] *)
Definition dict_mem {V} (d : dict V) (k : string) : bool :=
  bool_decide (is_Some (dict_get d k)).

(** [d[k]] *)
Definition dict_getitem {V} (d : dict V) (k : string) : result V :=
  match dict_get d k with
  | Some v => Ok v
  | None => Raise (KeyError k)
  end.

(** [d[k] = v]: an existing key keeps its place, a new key goes last. *)
Fixpoint dict_set {V} (d : dict V) (k : string) (v : V) : dict V :=
  match d with
  | [] => [(k, v)]
  | (k', v') :: d' =>
      if decide (k = k') then (k', v) :: d' else (k', v') :: dict_set d' k v
  end.

Definition dict_keys {V} (d : dict V) : list string := d.*1.
Definition dict_values {V} (d : dict V) : list V := d.*2.

(** [next(iter(d.values()))] *)
Definition next_iter_values {V} (d : dict V) : result V :=
  match dict_values d with
  | v :: _ => Ok v
  | [] => Raise StopIteration
  end.

(** *** Lists *)

(** [l[-k]] for [k >= 1] *)
Definition getitem_neg {A} (l : list A) (k : nat) : result A :=
  if decide (k ≤ length l)
  then match l !! (length l - k) with
       | Some x => Ok x
       | None => Raise IndexError
       end
  else Raise IndexError.

(** *** Sets *)

(** The order in which a set is visited: every element once. *)
Record SetOrder : Type := {
  iter : gset string → list string;
  iter_perm : ∀ s, iter s ≡ₚ elements s
}.

(** [sorted(xs)] on strings *)
Definition sorted (xs : list string) : list string :=
  merge_sort String.le xs.

End Py.
Import Py.

(** ** Configuration *)

Definition BASE_IMAGE_NAME : string := "serpentine".

Definition IMAGES : list string :=
  [BASE_IMAGE_NAME; BASE_IMAGE_NAME +:+ "-nvidia"].

(** [STABLE_START_PATTERN = re.compile(r"\d\d\.\d")], used with [re.match]:
    two digits, a dot and a digit at the start of the text. *)
Definition match_STABLE_START_PATTERN (tag : string) : bool :=
  match tag with
  | String d1 (String d2 (String dot (String d3 _))) =>
      is_digit d1 && is_digit d2 && Ascii.eqb dot "." && is_digit d3
  | _ => false
  end.

(** The text of [OTHER_START_PATTERN(target)], i.e. [rf"{target}-\d\d\.\d"]:
    the target is spliced in as pattern text. *)
Definition OTHER_START_PATTERN (target : string) : string :=
  target +:+ "-\d\d\.\d".

Definition BLACKLIST_VERSIONS : list string :=
  ["kernel"; "mesa-filesystem"; "gamescope"; "plasma-desktop";
   "atheros-firmware"].

Definition table_head : string :=
  "| | Name | Previous | New |" +:+ nl +:+ "| --- | --- | --- | --- |".

(** [COMMON_PAT.format(changes=..)] *)
Definition COMMON_PAT (changes : string) : string :=
  "### All Images" +:+ nl +:+ table_head +:+ changes +:+ nl +:+ nl.

(** [OTHER_NAMES[k].format(changes=..)], keys in the order of the literal. *)
Definition OTHER_NAMES : dict (string → string) :=
  [("desktop", λ changes,
      "### Desktop Images" +:+ nl +:+ table_head +:+ changes +:+ nl +:+ nl);
   ("deck", λ changes,
      "### Deck Images" +:+ nl +:+ table_head +:+ changes +:+ nl +:+ nl);
   ("kde", λ changes,
      "### KDE Images" +:+ nl +:+ table_head +:+ changes +:+ nl +:+ nl);
   ("nvidia", λ changes,
      "### Nvidia Images" +:+ nl +:+ table_head +:+ changes +:+ nl +:+ nl)].

Definition AUTHOR : string := "bogdan-d".
Definition UPSTREAM_IMAGE : string := "ublue-os/bazzite-deck".
Definition UPSTREAM_REGISTRY : string := "docker://ghcr.io/".

(** [UPSTREAM_RELEASE_URL.format(upstream_tag=..)] *)
Definition UPSTREAM_RELEASE_URL (upstream_tag : string) : string :=
  "https://github.com/ublue-os/bazzite/releases/tag/" +:+ upstream_tag.

Definition major_packages_rows : string :=
  "| Name | Version |" +:+ nl +:+
  "| --- | --- |" +:+ nl +:+
  "| **Kernel** | {pkgrel:kernel} |" +:+ nl +:+
  "| **Firmware** | {pkgrel:atheros-firmware} |" +:+ nl +:+
  "| **Mesa** | {pkgrel:mesa-filesystem} |" +:+ nl +:+
  "| **Gamescope** | {pkgrel:gamescope} |" +:+ nl +:+
  "| **KDE** | {pkgrel:plasma-desktop} |" +:+ nl +:+
  "| **[HHD](https://github.com/hhd-dev/hhd)** | {pkgrel:hhd} |" +:+ nl.

(** [UPSTREAM_PAT.format(changes=.., upstream_tag=.., upstream_created=..)];
    the doubled braces of the template leave [{pkgrel:..}] in the text. *)
Definition UPSTREAM_PAT (changes upstream_tag upstream_created : string)
    : string :=
  "### Upstream Base Image [" +:+ UPSTREAM_IMAGE +:+ "](" +:+
    UPSTREAM_RELEASE_URL upstream_tag +:+ ")" +:+ nl +:+
  "**Release Date:** " +:+ upstream_created +:+ nl +:+
  nl +:+
  "#### Major packages (from upstream: " +:+ UPSTREAM_IMAGE +:+ ")" +:+ nl +:+
  major_packages_rows +:+
  nl +:+
  "#### Package changes (from upstream: " +:+ UPSTREAM_IMAGE +:+ ")" +:+ nl +:+
  table_head +:+ changes +:+ nl +:+
  nl.

(** [COMMITS_FORMAT.format(commits=..)] *)
Definition COMMITS_FORMAT (commits : string) : string :=
  "### Commits" +:+ nl +:+ "| Hash | Subject | Author |" +:+ nl +:+
  "| --- | --- | --- |" +:+ commits +:+ nl +:+ nl.

(** [COMMIT_FORMAT] is filled in with [str.replace], so it stays a text. *)
Definition COMMIT_FORMAT : string :=
  nl +:+ "| **[{short}](https://github.com/" +:+ AUTHOR +:+ "/" +:+
  BASE_IMAGE_NAME +:+ "/commit/{hash})** | {subject} | {author} |".

(** [CHANGELOG_TITLE.format_map(defaultdict(str, tag=.., pretty=..))] *)
Definition CHANGELOG_TITLE (tag pretty : string) : string :=
  tag +:+ ": " +:+ pretty.

(** [CHANGELOG_FORMAT] is filled in with [str.replace], so it stays a text. *)
Definition CHANGELOG_FORMAT : string :=
  "{handwritten}" +:+ nl +:+
  nl +:+
  "From previous `{target}` version `{prev}` there have been the following changes. **One package per new version shown.**" +:+ nl +:+
  nl +:+
  "### Major packages" +:+ nl +:+
  major_packages_rows +:+
  nl +:+
  "{changes}" +:+ nl +:+
  nl +:+
  "### How to rebase" +:+ nl +:+
  "For current users, type the following to rebase to this version:" +:+ nl +:+
  "```bash" +:+ nl +:+
  "# For this branch (if latest):" +:+ nl +:+
  "serpentine-rollback-helper rebase {target}" +:+ nl +:+
  "# For this specific image:" +:+ nl +:+
  "serpentine-rollback-helper rebase {curr}" +:+ nl +:+
  "```" +:+ nl.

Definition HANDWRITTEN_PLACEHOLDER : string :=
  "This is an automatically generated changelog for release `{curr}`.".

(** [PATTERN_PKGREL.format(version=..)] and
    [PATTERN_PKGREL_CHANGED.format(prev=.., new=..)] *)
Definition PATTERN_PKGREL (version : string) : string := version.
Definition PATTERN_PKGREL_CHANGED (prev new : string) : string :=
  prev +:+ " ➡️ " +:+ new.

(** The row templates, as functions of the fields [str.format] fills in. *)
Definition PATTERN_ADD (name version : string) : string :=
  nl +:+ "| ✨ | " +:+ name +:+ " | | " +:+ version +:+ " |".
Definition PATTERN_CHANGE (name prev new : string) : string :=
  nl +:+ "| 🔄 | " +:+ name +:+ " | " +:+ prev +:+ " | " +:+ new +:+ " |".
Definition PATTERN_REMOVE (name version : string) : string :=
  nl +:+ "| ❌ | " +:+ name +:+ " | " +:+ version +:+ " | |".

(** ** Data model *)

(** What the code reads of a manifest (the JSON object printed by the
    registry inspection).  [rechunk_packages] is the value of
    [json.loads(m["Labels"]["dev.hhd.rechunk.info"])["packages"]], [None] when
    that expression raises; [revision] is
    [m["Labels"]["org.opencontainers.image.revision"]], [None] when that
    raises; [Created] is [None] when the key is absent.

    The record holds the package label as the image build writes it, an
    object that maps package names to version strings.  A label that decodes
    to a value of another shape is no [Manifest]: the code stores it and
    raises where it reads the versions, which [get_versions_decoded] below
    models; statements over [Manifest] say nothing about such a label. *)
Record Manifest : Type := {
  RepoTags : list string;
  rechunk_packages : option (dict string);
  revision : option string;
  Created : option string
}.

(** ** The program *)

(** The body of the loop of [get_images]: the triple yielded for [img]. *)
Definition get_images_row (img : string) : string * string * string :=
  let base := if contains img "deck" then "deck" else "desktop" in
  let de := if contains img "gnome" then "gnome" else "kde" in
  (img, base, de).

Definition get_images : list (string * string * string) :=
  get_images_row <$> IMAGES.

(** *** Package extraction and version normalisation *)

(** [get_packages]: a manifest whose label does not decode is left out. *)
Definition get_packages (manifests : dict Manifest) : dict (dict string) :=
  foldl (λ packages '(img, manifest),
           match rechunk_packages manifest with
           | Some pkgs => dict_set packages img pkgs
           | None => packages
           end)
        [] manifests.

(** [re.sub(FEDORA_PATTERN, "", v)] with [FEDORA_PATTERN = r"\.fc\d\d"]:
    every occurrence, scanning left to right, is deleted. *)
Fixpoint sub_FEDORA_PATTERN (v : string) : string :=
  match v with
  | "" => ""
  | String c rest =>
      match v with
      | String "." (String "f" (String "c" (String d1 (String d2 rest')))) =>
          if is_digit d1 && is_digit d2 then sub_FEDORA_PATTERN rest'
          else String c (sub_FEDORA_PATTERN rest)
      | _ => String c (sub_FEDORA_PATTERN rest)
      end
  end.

Definition get_versions (manifests : dict Manifest) : dict string :=
  foldl (λ versions img_pkgs,
           foldl (λ versions '(pkg, v),
                    dict_set versions pkg (sub_FEDORA_PATTERN v))
                 versions img_pkgs)
        [] (dict_values (get_packages manifests)).

(** *** The diff engine *)

(** The state of the classification loop of [calculate_changes]. *)
Record diff_state : Type := {
  added : list string;
  changed : list string;
  removed : list string;
  blacklist_ver : gset (option string)
}.

(** [set([curr.get(v, None) for v in BLACKLIST_VERSIONS])] *)
Definition calculate_changes_init (curr : dict string) : diff_state :=
  {| added := []; changed := []; removed := [];
     blacklist_ver := list_to_set (dict_get curr <$> BLACKLIST_VERSIONS) |}.

(** The three [continue] tests at the head of the loop body. *)
Definition calculate_changes_skip (prev curr : dict string)
    (bl : gset (option string)) (pkg : string) : bool :=
  if bool_decide (pkg ∈ BLACKLIST_VERSIONS) then true
  else if dict_mem curr pkg && bool_decide (dict_get curr pkg ∈ bl) then true
  else if dict_mem prev pkg && bool_decide (dict_get prev pkg ∈ bl) then true
  else false.

(** One iteration of [for pkg in pkgs].  In the third branch both keys are
    present, so [prev[pkg] != curr[pkg]] compares the two stored values. *)
Definition calculate_changes_step (prev curr : dict string)
    (st : diff_state) (pkg : string) : diff_state :=
  if calculate_changes_skip prev curr (blacklist_ver st) pkg then st
  else
    let bl :=
      {[dict_get prev pkg]} ∪ ({[dict_get curr pkg]} ∪ blacklist_ver st) in
    if negb (dict_mem prev pkg) then
      {| added := added st ++ [pkg]; changed := changed st;
         removed := removed st; blacklist_ver := bl |}
    else if negb (dict_mem curr pkg) then
      {| added := added st; changed := changed st;
         removed := removed st ++ [pkg]; blacklist_ver := bl |}
    else if bool_decide (dict_get prev pkg ≠ dict_get curr pkg) then
      {| added := added st; changed := changed st ++ [pkg];
         removed := removed st; blacklist_ver := bl |}
    else
      {| added := added st; changed := changed st;
         removed := removed st; blacklist_ver := bl |}.

(** The first loop of [calculate_changes]. *)
Definition calculate_changes_classify (pkgs : list string)
    (prev curr : dict string) : diff_state :=
  foldl (calculate_changes_step prev curr) (calculate_changes_init curr) pkgs.

(** [for pkg in pkgs: out += row(pkg)] where [row] may raise. *)
Fixpoint append_rows (row : string → result string) (pkgs : list string)
    (out : string) : result string :=
  match pkgs with
  | [] => Ok out
  | pkg :: rest => r ← row pkg; append_rows row rest (out +:+ r)
  end.

Definition calculate_changes (pkgs : list string) (prev curr : dict string)
    : result string :=
  let st := calculate_changes_classify pkgs prev curr in
  out ← append_rows
           (λ pkg, v ← dict_getitem curr pkg; Ok (PATTERN_ADD pkg v))
           (added st) "";
  out ← append_rows
           (λ pkg, p ← dict_getitem prev pkg;
                   n ← dict_getitem curr pkg;
                   Ok (PATTERN_CHANGE pkg p n))
           (changed st) out;
  append_rows
    (λ pkg, v ← dict_getitem prev pkg; Ok (PATTERN_REMOVE pkg v))
    (removed st) out.

(** *** Placeholder substitution *)

(** One iteration of [for pkg, v in versions.items()]: the placeholder of
    [pkg] becomes its version, or "previous -> new" when the version moved. *)
Definition replace_pkgrel (prev_versions : dict string) (text : string)
    (item : string * string) : string :=
  let '(pkg, v) := item in
  if negb (dict_mem prev_versions pkg)
     || bool_decide (dict_get prev_versions pkg = Some v)
  then str_replace text ("{pkgrel:" +:+ pkg +:+ "}") (PATTERN_PKGREL v)
  else str_replace text ("{pkgrel:" +:+ pkg +:+ "}")
         (PATTERN_PKGREL_CHANGED (default "" (dict_get prev_versions pkg)) v).

(** [re.sub(r"\.\d{1,2}$", "", s)]: a dot and one or two digits at the end
    of the text, or just before a final newline, are deleted. *)
Definition strip_dot_digits (r : string) : option string :=
  match r with
  | String d1 (String "." r') =>
      if is_digit d1 then Some r' else None
  | String d2 (String d1 (String "." r')) =>
      if is_digit d1 && is_digit d2 then Some r' else None
  | _ => None
  end.

Definition sub_patch_suffix (s : string) : string :=
  match String.rev s with
  | String "010" r =>
      match strip_dot_digits r with
      | Some r' => String.rev r' +:+ nl
      | None => s
      end
  | r =>
      match strip_dot_digits r with
      | Some r' => String.rev r'
      | None => s
      end
  end.

(** [re.sub(r"^[a-z]+-", "", s)]: a leading run of lower-case letters
    followed by a dash is deleted. *)
Fixpoint drop_lower (s : string) : string :=
  match s with
  | "" => ""
  | String c s' => if is_lower c then drop_lower s' else s
  end.

Definition sub_channel_prefix (s : string) : string :=
  match s with
  | String c _ =>
      if is_lower c
      then match drop_lower s with
           | String "-" rest => rest
           | _ => s
           end
      else s
  | "" => s
  end.

(** The loop over the lines of the commit log in [get_commits]; a line with
    more than four fields fails to unpack. *)
Fixpoint get_commits_rows (lines : list string) (out : string)
    : result string :=
  match lines with
  | [] => Ok out
  | commit :: rest =>
      if decide (commit = "") then get_commits_rows rest out
      else
        let parts := str_split commit "|" in
        if decide (length parts < 4) then get_commits_rows rest out
        else
          match parts with
          | [commit_hash; short; author; subject] =>
              if startswith (str_lower subject) "merge"
              then get_commits_rows rest out
              else
                get_commits_rows rest
                  (out +:+
                   str_replace
                     (str_replace
                        (str_replace
                           (str_replace COMMIT_FORMAT "{short}" short)
                           "{subject}" subject)
                        "{hash}" commit_hash)
                     "{author}" author)
          | _ => Raise ValueError
          end
  end.

(** [m["Labels"]["org.opencontainers.image.revision"]] *)
Definition label_revision (m : Manifest) : result string :=
  match revision m with
  | Some r => Ok r
  | None => Raise (KeyError "org.opencontainers.image.revision")
  end.

Section Program.

(** [re_compile p] is [re.compile(p)] followed by [re.match] on the
    compiled pattern: [None] when the pattern text is rejected
    ([re.error]), otherwise the test "the pattern matches at the start". *)
Context (re_compile : string → option (string → bool)).
Context (o : SetOrder).
(** [inspect_image ref]: the manifest behind a reference, [None] when the
    inspection gives nothing usable. *)
Context (inspect_image : string → option Manifest).
(** [git_log workdir range]: the text printed by
    [git -C workdir log --pretty=format:%H|%h|%an|%s range], [None] when
    the command fails. *)
Context (git_log : string → string → option string).
(** [format_created c]: the creation time [c] reprinted as
    ["%a %b %d %H:%M:%S %Y"], read as an ISO time or else as a UNIX time;
    [None] when both readings fail. *)
Context (format_created : string → option string).

(** First loop of [get_tags]: the reference tags of one manifest. *)
Fixpoint get_tags_collect (target : string) (repo_tags : list string)
    (tags : gset string) : result (gset string) :=
  match repo_tags with
  | [] => Ok tags
  | tag :: rest =>
      if endswith tag ".0" then get_tags_collect target rest tags
      else if negb (String.eqb target "stable") then
        match re_compile (OTHER_START_PATTERN target) with
        | None => Raise (ReError (OTHER_START_PATTERN target))
        | Some matches =>
            if matches tag
            then get_tags_collect target rest ({[tag]} ∪ tags)
            else get_tags_collect target rest tags
        end
      else
        if match_STABLE_START_PATTERN tag
        then get_tags_collect target rest ({[tag]} ∪ tags)
        else get_tags_collect target rest tags
  end.

(** Inner loop of the second pass: [for tag in list(tags): if tag not in
    manifest["RepoTags"]: tags.remove(tag)]. *)
Definition get_tags_prune (tags : gset string) (manifest : Manifest)
    : gset string :=
  foldl (λ acc tag,
           if decide (tag ∈ RepoTags manifest) then acc else acc ∖ {[tag]})
        tags (iter o tags).

Definition get_tags (target : string) (manifests : dict Manifest)
    : result (string * string) :=
  first ← next_iter_values manifests;
  tags ← get_tags_collect target (RepoTags first) ∅;
  let tags := foldl get_tags_prune tags (dict_values manifests) in
  let tags := sorted (iter o tags) in
  if decide (2 ≤ length tags)
  then prev ← getitem_neg tags 2;
       curr ← getitem_neg tags 1;
       Ok (prev, curr)
  else Raise (AssertionError "No current and previous tags found").

(** *** Group reconciliation *)

(** [set(d.get(k, {}))]: the names listed for image [k]. *)
Definition names_of (d : dict (dict string)) (k : string) : gset string :=
  list_to_set (dict_keys (default [] (dict_get d k))).

(** The table [pkg] of [get_package_groups]: for every image with a
    decoded package list on either side, the names of both sides. *)
Definition get_package_groups_pkg (npkg ppkg : dict (dict string))
    : gmap string (gset string) :=
  let keys : gset string :=
    list_to_set (dict_keys npkg) ∪ list_to_set (dict_keys ppkg) in
  foldl (λ pkg k, <[k := names_of npkg k ∪ names_of ppkg k]> pkg)
        ∅ (iter o keys).

(** [for p in s: acc.add(p)], with the guard of the group loop. *)
Definition add_all (keep : string → bool) (acc s : gset string)
    : gset string :=
  foldl (λ acc p, if keep p then {[p]} ∪ acc else acc) acc (iter o s).

(** [for c in acc.copy(): if c not in s: acc.remove(c)] *)
Definition retain_in (acc s : gset string) : gset string :=
  foldl (λ acc c, if decide (c ∈ s) then acc else acc ∖ {[c]})
        acc (iter o acc).

(** The loop "Find common packages", over the images [images]. *)
Definition get_package_groups_common
    (images : list (string * string * string))
    (pkg : gmap string (gset string)) : gset string :=
  (foldl (λ '(common, first) '(img, base, de),
            match pkg !! img with
            | None => (common, first)
            | Some s =>
                (if first : bool then add_all (λ _, true) common s
                 else retain_in common s,
                 false)
            end)
         (∅, true) images).1.

(** The five [continue] tests of the loop "Find other packages". *)
Definition group_skips (t base de : string) : bool :=
  if String.eqb t "nvidia" && negb (contains base "nvidia") then true
  else if String.eqb t "kde" && negb (String.eqb de "kde") then true
  else if String.eqb t "gnome" && negb (String.eqb de "gnome") then true
  else if String.eqb t "deck" && negb (String.eqb base "deck") then true
  else if String.eqb t "desktop" && String.eqb base "deck" then true
  else false.

(** The body of [for t, other in others.items()] for one group [t]. *)
Definition get_package_groups_other
    (images : list (string * string * string))
    (pkg : gmap string (gset string)) (common : gset string) (t : string)
    : gset string :=
  (foldl (λ '(other, first) '(img, base, de),
            match pkg !! img with
            | None => (other, first)
            | Some s =>
                if group_skips t base de then (other, first)
                else
                  (if first : bool
                   then add_all (λ p, bool_decide (p ∉ common)) other s
                   else retain_in other s,
                   false)
            end)
         (∅, true) images).1.

Definition get_package_groups (prev manifests : dict Manifest)
    : list string * dict (list string) :=
  let npkg := get_packages manifests in
  let ppkg := get_packages prev in
  let pkg := get_package_groups_pkg npkg ppkg in
  let common := get_package_groups_common get_images pkg in
  let others :=
    (λ k, (k, get_package_groups_other get_images pkg common k))
      <$> dict_keys OTHER_NAMES in
  (sorted (iter o common),
   (λ '(k, v), (k, sorted (iter o v))) <$> others).

(** *** Rendering *)

Definition get_upstream_manifests (target : string) : dict Manifest :=
  match inspect_image (UPSTREAM_REGISTRY +:+ UPSTREAM_IMAGE +:+ ":" +:+ target) with
  | Some manifest => [(UPSTREAM_IMAGE, manifest)]
  | None => []
  end.

(** [given or get_upstream_manifests(tag)] *)
Definition or_upstream (given : option (dict Manifest)) (tag : string)
    : dict Manifest :=
  match given with
  | Some (m :: ms) => m :: ms
  | _ => get_upstream_manifests tag
  end.

Definition get_upstream_section (target : string)
    (upstream_curr_manifests upstream_prev_manifests
       : option (dict Manifest)) : string :=
  try_except
    (let upstream_curr := or_upstream upstream_curr_manifests target in
     match upstream_curr with
     | [] => Ok ""
     | _ :: _ =>
         match get_tags target upstream_curr with
         | Raise _ => Ok ""
         | Ok (prev_tag, curr_tag) =>
             let upstream_prev :=
               or_upstream upstream_prev_manifests prev_tag in
             let prev_versions := get_versions upstream_prev in
             let curr_versions := get_versions upstream_curr in
             let pkgs :=
               sorted (iter o (list_to_set (dict_keys prev_versions)
                               ∪ list_to_set (dict_keys curr_versions))) in
             chg ← calculate_changes pkgs prev_versions curr_versions;
             if decide (chg = "") then Ok ""
             else
               first ← next_iter_values upstream_curr;
               let upstream_created :=
                 if truthy (Created first)
                 then default "unknown"
                        (format_created (default "" (Created first)))
                 else "unknown" in
               let upstream_section :=
                 UPSTREAM_PAT chg curr_tag upstream_created in
               Ok (foldl (replace_pkgrel prev_versions) upstream_section
                         curr_versions)
         end
     end)
    "".

Definition get_commits (prev_manifests manifests : dict Manifest)
    (workdir : option string) : string :=
  if negb (truthy workdir) then ""
  else
    try_except
      (pm ← next_iter_values prev_manifests;
       start ← label_revision pm;
       m ← next_iter_values manifests;
       finish ← label_revision m;
       match git_log (default "" workdir) (start +:+ ".." +:+ finish) with
       | None => Raise ValueError
       | Some commits =>
           out ← get_commits_rows (str_split commits "010") "";
           if decide (out = "") then Ok "" else Ok (COMMITS_FORMAT out)
       end)
      "".

(** The title text generated when no [pretty] is given. *)
Definition generate_pretty (target curr : string)
    (manifests : dict Manifest) : string :=
  let finish :=
    try_except (m ← next_iter_values manifests; label_revision m) "" in
  let curr_pretty := sub_channel_prefix (sub_patch_suffix curr) in
  let pretty := str_capitalize target +:+ " (F" +:+ curr_pretty in
  let pretty :=
    if truthy (Some finish) && negb (String.eqb target "stable")
    then pretty +:+ ", #" +:+ str_take 7 finish
    else pretty in
  pretty +:+ ")".

(** [for k, v in others.items()]: one section per group with changes. *)
Fixpoint generate_changelog_groups (others : dict (list string))
    (prev_versions versions : dict string) (changes : string)
    : result string :=
  match others with
  | [] => Ok changes
  | (k, v) :: rest =>
      chg ← calculate_changes v prev_versions versions;
      if decide (chg = "")
      then generate_changelog_groups rest prev_versions versions changes
      else
        pat ← dict_getitem OTHER_NAMES k;
        generate_changelog_groups rest prev_versions versions
          (changes +:+ pat chg)
  end.

Definition generate_changelog (handwritten : option string)
    (target : string) (pretty workdir : option string)
    (prev_manifests manifests : dict Manifest)
    (upstream_curr_manifests upstream_prev_manifests
       : option (dict Manifest)) : result (string * string) :=
  let '(common, others) := get_package_groups prev_manifests manifests in
  let versions := get_versions manifests in
  let prev_versions := get_versions prev_manifests in
  '(prev, curr) ← get_tags target manifests;
  let pretty :=
    if truthy pretty then default "" pretty
    else generate_pretty target curr manifests in
  let title := CHANGELOG_TITLE curr pretty in
  let changelog :=
    str_replace
      (str_replace
         (str_replace
            (str_replace CHANGELOG_FORMAT "{handwritten}"
               (if truthy handwritten then default "" handwritten
                else HANDWRITTEN_PLACEHOLDER))
            "{target}" target)
         "{prev}" prev)
      "{curr}" curr in
  let changelog := foldl (replace_pkgrel prev_versions) changelog versions in
  let changes := "" +:+ get_commits prev_manifests manifests workdir in
  let changes :=
    changes +:+ get_upstream_section target upstream_curr_manifests
                  upstream_prev_manifests in
  common ← calculate_changes common prev_versions versions;
  let changes :=
    if decide (common = "") then changes
    else changes +:+ COMMON_PAT common in
  changes ← generate_changelog_groups others prev_versions versions changes;
  let changelog := str_replace changelog "{changes}" changes in
  Ok (title, changelog).

End Program.

(** *** Registry inspection and the command line *)

Definition REGISTRY : string := "docker://ghcr.io/" +:+ AUTHOR +:+ "/".
Definition RETRIES : nat := 3.
Definition RETRY_WAIT : nat := 5.

(** What [inspect_image] does to the outside world: a run of
    [skopeo inspect ref], or a sleep of so many seconds. *)
Inductive event : Type :=
| RunSkopeo (ref : string)
| Sleep (seconds : nat).

(** The loop [for i in range(RETRIES)] of [inspect_image], from attempt [i]
    with [n] attempts to go.  [skopeo ref i] is the standard output of the
    attempt number [i], [None] when the command fails. *)
Fixpoint inspect_image_loop (skopeo : string → nat → option string)
    (ref : string) (i n : nat) : option string * list event :=
  match n with
  | 0 => (None, [])
  | S n' =>
      match skopeo ref i with
      | Some output => (Some output, [RunSkopeo ref])
      | None =>
          let '(output, events) := inspect_image_loop skopeo ref (S i) n' in
          (output,
           RunSkopeo ref
             :: (if decide (i < RETRIES - 1) then [Sleep RETRY_WAIT] else [])
             ++ events)
      end
  end.

(** [inspect_image], with the events it causes.  [json_loads] is
    [json.loads] read as a manifest, [None] when it raises. *)
Definition inspect_image_events (skopeo : string → nat → option string)
    (json_loads : string → option Manifest) (ref : string)
    : option Manifest * list event :=
  let '(output, events) := inspect_image_loop skopeo ref 0 RETRIES in
  (match output with
   | None => None
   | Some output => json_loads output
   end,
   events).

(** *** Package labels of any shape *)

(** A decoded JSON value as [get_versions] tells values apart: a string, or
    a value of another type (a number, a boolean, [null], a list, an
    object). *)
Inductive json_value : Type :=
| JString (s : string)
| JOther.

(** The value of
    [json.loads(m["Labels"]["dev.hhd.rechunk.info"])["packages"]] when the
    expression does not raise: a JSON object, or a value of another type. *)
Inductive packages_value : Type :=
| PObject (entries : dict json_value)
| POther.

(** [get_packages] on the values the labels hold, whatever their shape:
    [labels] gives for each image the value of the expression above, [None]
    when it raises.  The [try] covers the decoding only, and the value is
    stored as it is. *)
Definition get_packages_decoded (labels : dict (option packages_value))
    : dict packages_value :=
  foldl (λ packages '(img, label),
           match label with
           | Some pkgs => dict_set packages img pkgs
           | None => packages
           end)
        [] labels.

(** The inner loop of [get_versions]: [re.sub] raises [TypeError] on a
    version that is no string. *)
Definition get_versions_entries (versions : dict string)
    (entries : dict json_value) : result (dict string) :=
  foldl (λ acc '(pkg, v),
           versions ← acc;
           match v with
           | JString v => Ok (dict_set versions pkg (sub_FEDORA_PATTERN v))
           | JOther => Raise TypeError
           end)
        (Ok versions) entries.

(** The outer loop of [get_versions]: [img_pkgs.items()] raises
    [AttributeError] on a value that is no object. *)
Definition get_versions_loop (acc : result (dict string))
    (values : list packages_value) : result (dict string) :=
  foldl (λ acc img_pkgs,
           versions ← acc;
           match img_pkgs with
           | PObject entries => get_versions_entries versions entries
           | POther => Raise AttributeError
           end)
        acc values.

(** [get_versions] on the values the labels hold. *)
Definition get_versions_decoded (labels : dict (option packages_value))
    : result (dict string) :=
  get_versions_loop (Ok []) (dict_values (get_packages_decoded labels)).


(** The target of [main]: the part of the argument after the last slash,
    with [main] read as [stable]. *)
Definition main_target (target : option string) : string :=
  let target :=
    match target with
    | None => "stable"
    | Some t => default "" (last (str_split t "/"))
    end in
  if String.eqb target "main" then "stable" else target.


Section Driver.

Context (re_compile : string → option (string → bool)).
Context (o : SetOrder).
Context (inspect_image : string → option Manifest).
Context (git_log : string → string → option string).
Context (format_created : string → option string).

Definition get_manifests (target : string) : dict Manifest :=
  foldl (λ out '(img, _, _),
           match inspect_image (REGISTRY +:+ img +:+ ":" +:+ target) with
           | None => out
           | Some manifest => dict_set out img manifest
           end)
        [] get_images.


End Driver.

(** ** Concrete collaborators, to run the program on concrete inputs *)

(** Two visiting orders. *)
Program Definition elements_order : SetOrder := {| iter := elements |}.
Next Obligation. done. Qed.

Program Definition reverse_order : SetOrder :=
  {| iter := λ s, reverse (elements s) |}.
Next Obligation. intros s. by rewrite reverse_Permutation. Qed.

(** An engine that rejects every pattern text; the stable channel never
    consults the engine. *)
Definition no_re : string → option (string → bool) := λ _, None.

(** A manifest of which only the tag list matters. *)
Definition manifest_of_tags (ts : list string) : Manifest :=
  {| RepoTags := ts; rechunk_packages := None; revision := None;
     Created := None |}.

(** A manifest of which only the package list matters. *)
Definition manifest_of_packages (pkgs : dict string) : Manifest :=
  {| RepoTags := []; rechunk_packages := Some pkgs; revision := None;
     Created := None |}.

(** ** Vocabulary of the statements *)

(** The test "the tag matches the channel pattern": the fixed pattern of
    the stable channel, the compiled pattern of a named channel. *)
Definition channel_pattern (re_compile : string → option (string → bool))
    (target : string) : option (string → bool) :=
  if String.eqb target "stable" then Some match_STABLE_START_PATTERN
  else re_compile (OTHER_START_PATTERN target).

(** A qualifying tag: a tag of the collection that matches the channel
    pattern, does not end in [.0] and is in the tag list of every variant. *)
Definition qualifies (re_compile : string → option (string → bool))
    (target : string) (manifests : dict Manifest) (tag : string) : Prop :=
  (∃ m, m ∈ dict_values manifests ∧ tag ∈ RepoTags m) ∧
  (∀ m, m ∈ dict_values manifests → tag ∈ RepoTags m) ∧
  endswith tag ".0" = false ∧
  ∃ matches, channel_pattern re_compile target = Some matches ∧
             matches tag = true.

(** The package [x] is classified by the loop of [calculate_changes]: at one
    of its places in the universe it passes the three skip tests, taken
    against the suppressed versions collected up to there. *)
Definition classified (pkgs : list string) (prev curr : dict string)
    (x : string) : Prop :=
  ∃ l1 l2, pkgs = l1 ++ x :: l2 ∧
    calculate_changes_skip prev curr
      (blacklist_ver (calculate_changes_classify l1 prev curr)) x = false.

(** The four outcomes of a package name. *)
Inductive outcome : Type := Added | Changed | Removed | NotReported.

Definition has_outcome (st : diff_state) (x : string) (oc : outcome) : Prop :=
  match oc with
  | Added => x ∈ added st
  | Changed => x ∈ changed st
  | Removed => x ∈ removed st
  | NotReported => (x ∉ added st) ∧ (x ∉ changed st) ∧ (x ∉ removed st)
  end.

(** The rows of a list of packages, one after the other. *)
Definition rows (row : string → string) (pkgs : list string) : string :=
  foldr (λ pkg out, row pkg +:+ out) "" pkgs.

Definition row_add (curr : dict string) (pkg : string) : string :=
  PATTERN_ADD pkg (default "" (dict_get curr pkg)).
Definition row_change (prev curr : dict string) (pkg : string) : string :=
  PATTERN_CHANGE pkg (default "" (dict_get prev pkg))
    (default "" (dict_get curr pkg)).
Definition row_remove (prev : dict string) (pkg : string) : string :=
  PATTERN_REMOVE pkg (default "" (dict_get prev pkg)).

(** The maps and the universe of the diff scenario. *)
Definition scenario_prev : dict string := [("foo", "1.0"); ("kernel", "6.1")].
Definition scenario_curr : dict string :=
  [("foo", "1.1"); ("kernel", "6.2"); ("bar", "2.0")].
Definition scenario_universe : list string := ["foo"; "kernel"; "bar"].

(** The universe of a variant: the package names of its previous and of
    its current package list. *)
Definition variant_universe (prev manifests : dict Manifest) (img : string)
    : gset string :=
  names_of (get_packages manifests) img ∪ names_of (get_packages prev) img.

(** The variants that take part in the reconciliation: those with a decoded
    package list on either side. *)
Definition has_packages (prev manifests : dict Manifest) (img : string)
    : Prop :=
  img ∈ dict_keys (get_packages manifests) ∨
  img ∈ dict_keys (get_packages prev).

(** Two manifest collections that list the same package names for the same
    images, whatever the versions. *)
Definition same_names (ms ms' : dict Manifest) : Prop :=
  (λ '(img, m), (img, dict_keys <$> rechunk_packages m)) <$> ms =
  (λ '(img, m), (img, dict_keys <$> rechunk_packages m)) <$> ms'.

(** The common shape of the two loops of [get_package_groups]: over the
    images that [selected] keeps, take the kept names of the first and
    retain those that every later one has. *)
Definition group_loop (o : SetOrder)
    (selected : string * string * string → option (gset string))
    (keep : string → bool) (images : list (string * string * string))
    (st : gset string * bool) : gset string * bool :=
  foldl (λ '(acc, first) i,
           match selected i with
           | None => (acc, first)
           | Some s =>
               (if first : bool then add_all o keep acc s
                else retain_in o acc s,
                false)
           end)
        st images.

(** The images a group takes into account. *)
Definition group_selects (pkg : gmap string (gset string)) (t : string)
    (i : string * string * string) : option (gset string) :=
  match pkg !! i.1.1 with
  | None => None
  | Some s => if group_skips t i.1.2 i.2 then None else Some s
  end.

(** Two manifest collections that differ at most in the version strings of
    their package lists. *)
Definition same_but_versions (ms ms' : dict Manifest) : Prop :=
  (λ '(img, m), (img, RepoTags m, revision m,
                 dict_keys <$> rechunk_packages m)) <$> ms =
  (λ '(img, m), (img, RepoTags m, revision m,
                 dict_keys <$> rechunk_packages m)) <$> ms'.

(** The names of a table of package lists, without the versions. *)
Definition names_only (d : dict (dict string)) : dict (list string) :=
  (λ '(img, pkgs), (img, dict_keys pkgs)) <$> d.

(** Inputs on which raw and normalised strings tell different stories. *)
Definition fc_prev : dict Manifest :=
  [("serpentine", manifest_of_packages [("lib", "1.0-1.fc40")])].
Definition fc_curr : dict Manifest :=
  [("serpentine", manifest_of_packages [("lib", "1.0-1.fc41")])].
Definition raw_names : dict Manifest :=
  [("serpentine", manifest_of_packages [("lib.fc41", "1.0")]);
   ("serpentine-nvidia", manifest_of_packages [("lib", "1.0")])].
Definition raw_versions : dict Manifest :=
  [("serpentine", manifest_of_packages [("lib", "1.0-1.fc40")]);
   ("serpentine-nvidia", manifest_of_packages [("lib", "2.0-7.fc41")])].

(** The tags of the scenario of the stable channel, listed by both images. *)
Definition scenario_tags : list string := ["23.9"; "23.10"; "23.10.0"].
Definition scenario_manifests : dict Manifest :=
  [("serpentine", manifest_of_tags scenario_tags);
   ("serpentine-nvidia", manifest_of_tags scenario_tags)].

(** Collections with one and with two qualifying tags. *)
Definition one_tag_manifests : dict Manifest :=
  [("serpentine", manifest_of_tags ["41.20250101"; "41.20250102.0"; "latest"])].
Definition two_tag_manifests : dict Manifest :=
  [("serpentine", manifest_of_tags ["41.20250101"; "41.20250108"; "latest"])].


(** The same package lists under other Fedora tags and other versions. *)
Definition fc_curr' : dict Manifest :=
  [("serpentine", manifest_of_packages [("lib", "1.0-1.fc42")])].
Definition raw_versions' : dict Manifest :=
  [("serpentine", manifest_of_packages [("lib", "3.1")]);
   ("serpentine-nvidia", manifest_of_packages [("lib", "0.9.fc39")])].

(** A collection in which one label decodes and the other does not. *)
Definition half_decoded : dict Manifest :=
  [("serpentine", manifest_of_tags ["41.20250101"]);
   ("serpentine-nvidia", manifest_of_packages [("lib", "1.0-1.fc41")])].

(** The entries of all the decoded package lists, in the order in which
    [get_versions] meets them. *)
Definition label_entries (manifests : dict Manifest) : dict string :=
  concat (dict_values (get_packages manifests)).

(** The text starts with a Fedora tag: a dot, [fc] and two digits. *)
Definition fedora_at (v : string) : bool :=
  match v with
  | String a (String b (String c (String d1 (String d2 _)))) =>
      Ascii.eqb a "." && Ascii.eqb b "f" && Ascii.eqb c "c"
      && is_digit d1 && is_digit d2
  | _ => false
  end.

(** [v] is the previous or the current version of [x]. *)
Definition has_version (prev curr : dict string) (x v : string) : Prop :=
  dict_get prev x = Some v ∨ dict_get curr x = Some v.

(** The package [x] shares no version: it is no anchor, and at one of its
    places in the universe none of its versions, previous or current, is the
    current version of an anchor or a version of a name listed before it. *)
Definition unshared (pkgs : list string) (prev curr : dict string)
    (x : string) : Prop :=
  (x ∉ BLACKLIST_VERSIONS) ∧
  ∃ l1 l2, pkgs = l1 ++ x :: l2 ∧
    ∀ v, has_version prev curr x v →
         (∀ k, k ∈ BLACKLIST_VERSIONS → dict_get curr k ≠ Some v) ∧
         (∀ y, y ∈ l1 → ¬ has_version prev curr y v).

(** Two packages released with the same new version. *)
Definition lockstep_prev : dict string := [("mesa-libGL", "24.1")].
Definition lockstep_curr : dict string :=
  [("mesa-libGL", "24.2"); ("mesa-libEGL", "24.2")].

(** A line of the commit log that adds no row: a blank line, a line with
    fewer than four fields, or a commit whose subject starts with "merge" in
    any mix of cases. *)
Definition commit_skipped (line : string) : Prop :=
  line = "" ∨ length (str_split line "|") < 4 ∨
  ∃ commit_hash short author subject,
    str_split line "|" = [commit_hash; short; author; subject] ∧
    startswith (str_lower subject) "merge" = true.

(** A commit log with a subject that holds the field separator. *)
Definition piped_log : string :=
  "aaaa1111|aaaa|Ann|Fix a|b" +:+ nl +:+ "cccc3333|cccc|Cy|Add stuff".

(** A manifest with a revision label only. *)
Definition manifest_of_revision (r : string) : Manifest :=
  {| RepoTags := []; rechunk_packages := None; revision := Some r;
     Created := None |}.

(** A decoded label that maps package names to version strings. *)
Definition string_mapping (p : packages_value) : bool :=
  match p with
  | PObject entries =>
      forallb (λ '(_, v), match v with JString _ => true | JOther => false end)
        entries
  | POther => false
  end.

(** The package label of a manifest as a decoded value: an object whose
    values are strings, or a label that does not decode. *)
Definition label_of (m : Manifest) : option packages_value :=
  (λ pkgs, PObject ((λ '(pkg, v), (pkg, JString v)) <$> pkgs))
    <$> rechunk_packages m.

Definition labels_of (manifests : dict Manifest)
    : dict (option packages_value) :=
  (λ '(img, m), (img, label_of m)) <$> manifests.

(** A label that holds a number where a version is expected, beside a
    label that does not decode. *)
Definition number_label : dict (option packages_value) :=
  [("serpentine", None);
   ("serpentine-nvidia",
    Some (PObject [("kernel", JString "6.1-1.fc41"); ("mesa", JOther)]))].


(** At least two tags qualify. *)
Definition two_qualify (re_compile : string → option (string → bool))
    (target : string) (manifests : dict Manifest) : Prop :=
  ∃ t1 t2, t1 ≠ t2 ∧ qualifies re_compile target manifests t1
                    ∧ qualifies re_compile target manifests t2.

(** ** Properties *)

(** Case analysis on membership in a list that is written out. *)
Ltac list_cases H :=
  repeat (let E := fresh "E" in
          apply elem_of_cons in H as [E|H];
          [first [discriminate E | subst | idtac]|]);
  try (by apply elem_of_nil in H).

(** *** Sets and sorting *)

Section SetLoops.
Context (o : SetOrder).

Lemma elem_of_iter (s : gset string) x : x ∈ iter o s ↔ x ∈ s.
Proof. by rewrite (iter_perm o s), elem_of_elements. Qed.

Lemma NoDup_iter (s : gset string) : NoDup (iter o s).
Proof. rewrite (iter_perm o s). apply NoDup_elements. Qed.

Lemma list_to_set_iter (s : gset string) : list_to_set (iter o s) = s.
Proof. apply set_eq. intros x. by rewrite elem_of_list_to_set, elem_of_iter. Qed.

(** Removing, one at a time, the visited elements that fail [P]. *)
Lemma elem_of_foldl_remove (P : string → Prop) `{!∀ x, Decision (P x)}
    (l : list string) (acc : gset string) x :
  x ∈ foldl (λ acc c, if decide (P c) then acc else acc ∖ {[c]}) acc l
  ↔ x ∈ acc ∧ (x ∈ l → P x).
Proof.
  revert acc. induction l as [|c l IH]; intros acc; simpl.
  - rewrite elem_of_nil. tauto.
  - rewrite IH, elem_of_cons. destruct (decide (P c)) as [HP|HP].
    + split; intros [Hx Hl]; (split; [done|]).
      * intros [->|Hin]; auto.
      * auto.
    + rewrite elem_of_difference, elem_of_singleton.
      split.
      * intros [[Hx Hne] Hl]. split; [done|]. intros [->|Hin]; [done|auto].
      * intros [Hx Hl]. split; [split; [done|]|auto].
        intros ->. apply HP, Hl. by left.
Qed.

(** Adding the visited elements that pass [keep]. *)
Lemma elem_of_foldl_add (keep : string → bool) (l : list string)
    (acc : gset string) x :
  x ∈ foldl (λ acc p, if keep p then {[p]} ∪ acc else acc) acc l
  ↔ x ∈ acc ∨ (x ∈ l ∧ keep x = true).
Proof.
  revert acc. induction l as [|p l IH]; intros acc; simpl.
  - rewrite elem_of_nil. tauto.
  - rewrite IH, elem_of_cons. destruct (keep p) eqn:Hk.
    + rewrite elem_of_union, elem_of_singleton.
      split; [intros [[->|?]|[? ?]]|intros [?|[[->|?] ?]]]; auto.
    + split; [intros [?|[? ?]]|intros [?|[[->|?] ?]]]; auto. congruence.
Qed.

Lemma elem_of_retain_in (acc s : gset string) x :
  x ∈ retain_in o acc s ↔ x ∈ acc ∧ x ∈ s.
Proof.
  unfold retain_in. rewrite elem_of_foldl_remove, elem_of_iter. tauto.
Qed.

Lemma elem_of_add_all keep (acc s : gset string) x :
  x ∈ add_all o keep acc s ↔ x ∈ acc ∨ (x ∈ s ∧ keep x = true).
Proof. unfold add_all. by rewrite elem_of_foldl_add, elem_of_iter. Qed.

End SetLoops.

Lemma sorted_Permutation (l : list string) : sorted l ≡ₚ l.
Proof. apply merge_sort_Permutation. Qed.

Lemma sorted_StronglySorted (l : list string) :
  StronglySorted String.le (sorted l).
Proof. apply (StronglySorted_merge_sort String.le). Qed.

Lemma elem_of_sorted (l : list string) x : x ∈ sorted l ↔ x ∈ l.
Proof. by rewrite sorted_Permutation. Qed.

(** Sorting forgets the order in which the elements arrive. *)
Lemma sorted_perm_eq (l1 l2 : list string) : l1 ≡ₚ l2 → sorted l1 = sorted l2.
Proof.
  intros Hp. apply (StronglySorted_unique String.le);
    [apply sorted_StronglySorted..|].
  by rewrite !sorted_Permutation.
Qed.

Lemma sorted_iter_order (o1 o2 : SetOrder) (s : gset string) :
  sorted (iter o1 s) = sorted (iter o2 s).
Proof. apply sorted_perm_eq. by rewrite !iter_perm. Qed.

(** Having two distinct elements, for a set and for its sorted listing. *)
Lemma two_elements_length (o : SetOrder) (Q : gset string) :
  2 ≤ length (sorted (iter o Q)) ↔ ∃ t1 t2, t1 ≠ t2 ∧ t1 ∈ Q ∧ t2 ∈ Q.
Proof.
  rewrite sorted_Permutation, (iter_perm o Q). split.
  - intros Hlen. pose proof (NoDup_elements Q) as Hnd.
    destruct (elements Q) as [|t1 [|t2 l]] eqn:Hel; simpl in Hlen; try lia.
    exists t1, t2. rewrite <-!elem_of_elements, Hel.
    split; [|split; [by left|by right; left]].
    intros ->. apply NoDup_cons in Hnd as [Hnd _]. apply Hnd. by left.
  - intros (t1 & t2 & Hne & H1 & H2).
    change (length (elements Q)) with (size Q).
    trans (size ({[t1]} ∪ {[t2]} : gset string)).
    + rewrite size_union by set_solver. by rewrite !size_singleton.
    + apply subseteq_size. set_solver.
Qed.

(** *** Tag selection *)

Lemma getitem_neg_last_two {A} (l : list A) (p c : A) :
  getitem_neg (l ++ [p; c]) 2 = Ok p ∧ getitem_neg (l ++ [p; c]) 1 = Ok c.
Proof.
  unfold getitem_neg. rewrite !length_app. simpl.
  split; (case_decide; [|lia]).
  - replace (length l + 2 - 2) with (length l + 0) by lia.
    by rewrite lookup_app_r, Nat.add_0_r, Nat.sub_diag by lia.
  - replace (length l + 2 - 1) with (length l + 1) by lia.
    rewrite lookup_app_r by lia.
    by replace (length l + 1 - length l) with 1 by lia.
Qed.

Lemma last_two_inv {A} (l : list A) :
  2 ≤ length l → ∃ l' p c, l = l' ++ [p; c].
Proof.
  intros Hlen. destruct l as [|c l _] using rev_ind; [simpl in Hlen; lia|].
  destruct l as [|p l _] using rev_ind.
  { rewrite length_app in Hlen. simpl in Hlen. lia. }
  exists l, p, c. by rewrite <-(assoc_L (++)).
Qed.

Section TagSelector.
Context (re_compile : string → option (string → bool)) (o : SetOrder).

Lemma get_tags_collect_Some target matches l tags :
  channel_pattern re_compile target = Some matches →
  ∃ tags', get_tags_collect re_compile target l tags = Ok tags' ∧
    ∀ x, x ∈ tags' ↔
         x ∈ tags ∨ (x ∈ l ∧ endswith x ".0" = false ∧ matches x = true).
Proof.
  unfold channel_pattern. intros Hpat. revert tags.
  induction l as [|tag l IH]; intros tags; simpl.
  { exists tags. split; [done|]. intros x. rewrite elem_of_nil. tauto. }
  assert (∀ tags0,
    (∀ x, x ∈ tags0 ↔ x ∈ tags ∨ (x = tag ∧ endswith x ".0" = false
                                    ∧ matches x = true)) →
    ∃ tags', get_tags_collect re_compile target l tags0 = Ok tags' ∧
      ∀ x, x ∈ tags' ↔ x ∈ tags ∨ (x ∈ tag :: l ∧ endswith x ".0" = false
                                    ∧ matches x = true)) as Hstep.
  { intros tags0 H0. destruct (IH tags0) as (tags' & -> & Hin).
    exists tags'. split; [done|]. intros x.
    rewrite Hin, H0, elem_of_cons. tauto. }
  destruct (endswith tag ".0") eqn:Hend.
  { apply Hstep. intros x. split; [tauto|].
    intros [?|(-> & ? & _)]; [done|congruence]. }
  destruct (String.eqb target "stable") eqn:Hst; simpl.
  - injection Hpat as <-.
    destruct (match_STABLE_START_PATTERN tag) eqn:Hm; apply Hstep; intros x.
    + rewrite elem_of_union, elem_of_singleton. split.
      * intros [->|?]; auto.
      * intros [?|(-> & _)]; auto.
    + split; [tauto|]. intros [?|(-> & _ & ?)]; [done|congruence].
  - rewrite Hpat.
    destruct (matches tag) eqn:Hm; apply Hstep; intros x.
    + rewrite elem_of_union, elem_of_singleton. split.
      * intros [->|?]; auto.
      * intros [?|(-> & _)]; auto.
    + split; [tauto|]. intros [?|(-> & _ & ?)]; [done|congruence].
Qed.

Lemma get_tags_collect_None target l tags :
  channel_pattern re_compile target = None →
  get_tags_collect re_compile target l tags = Ok tags ∨
  ∃ e, get_tags_collect re_compile target l tags = Raise e.
Proof.
  unfold channel_pattern. intros Hpat.
  induction l as [|tag l IH]; simpl; [by left|].
  destruct (endswith tag ".0"); [done|].
  destruct (String.eqb target "stable"); [done|]. simpl.
  rewrite Hpat. right. eauto.
Qed.

Lemma elem_of_get_tags_prune (tags : gset string) (m : Manifest) x :
  x ∈ get_tags_prune o tags m ↔ x ∈ tags ∧ x ∈ RepoTags m.
Proof using o.
  unfold get_tags_prune.
  rewrite (elem_of_foldl_remove (λ t, t ∈ RepoTags m)), elem_of_iter.
  split; intros [? ?]; auto.
Qed.

Lemma elem_of_foldl_get_tags_prune (ms : list Manifest) (tags : gset string) x :
  x ∈ foldl (get_tags_prune o) tags ms
  ↔ x ∈ tags ∧ ∀ m, m ∈ ms → x ∈ RepoTags m.
Proof using o.
  revert tags. induction ms as [|m ms IH]; intros tags; simpl.
  - split; [|by intros [? _]]. intros ?. split; [done|].
    by intros ? ?%elem_of_nil.
  - rewrite IH, elem_of_get_tags_prune. split.
    + intros [[? ?] Hms]. split; [done|]. intros m' [->|?]%elem_of_cons; auto.
    + intros [? Hms]. split; [split; [done|]|].
      * apply Hms. by left.
      * intros m' ?. apply Hms. by right.
Qed.

(** What [get_tags] computes: the set of qualifying tags, of which the two
    greatest are returned when there are at least two. *)
Lemma get_tags_selected target manifests :
  (∃ e, get_tags re_compile o target manifests = Raise e ∧
        ∀ t, ¬ qualifies re_compile target manifests t) ∨
  (∃ Q : gset string,
     (∀ t, t ∈ Q ↔ qualifies re_compile target manifests t) ∧
     get_tags re_compile o target manifests =
       let tags := sorted (iter o Q) in
       if decide (2 ≤ length tags)
       then prev ← getitem_neg tags 2; curr ← getitem_neg tags 1;
            Ok (prev, curr)
       else Raise (AssertionError "No current and previous tags found")).
Proof.
  unfold get_tags, next_iter_values, qualifies.
  destruct manifests as [|[k first] rest]; simpl.
  { left. eexists. split; [done|].
    intros t [(m & Hm%elem_of_nil & _) _]. done. }
  destruct (channel_pattern re_compile target) as [matches|] eqn:Hpat.
  - right.
    destruct (get_tags_collect_Some target matches (RepoTags first) ∅ Hpat)
      as (tags0 & -> & Hin). simpl.
    eexists. split; [|reflexivity]. intros t.
    rewrite elem_of_foldl_get_tags_prune, elem_of_get_tags_prune, Hin.
    rewrite elem_of_empty. split.
    + intros [[[[]|(Ht & He & Hm)] Hf] Hrest].
      split; [exists first; split; [by left|done]|].
      split; [|eauto].
      intros m [->|?]%elem_of_cons; auto.
    + intros ((m & Hm & Ht) & Hall & He & matches' & [= <-] & Hmt).
      assert (t ∈ RepoTags first) by (apply Hall; by left).
      split; [split; [right|]; done|].
      intros m' ?. apply Hall. by right.
  - assert (∀ t, ¬ ((∃ m, m ∈ first :: rest.*2 ∧ t ∈ RepoTags m) ∧
      (∀ m, m ∈ first :: rest.*2 → t ∈ RepoTags m) ∧
      endswith t ".0" = false ∧
      ∃ matches, None = Some matches ∧ matches t = true)) as Hnq.
    { intros t (_ & _ & _ & ? & ? & _). done. }
    destruct (get_tags_collect_None target (RepoTags first) ∅ Hpat)
      as [->|[e ->]]; simpl.
    + right. exists ∅. split.
      { intros t. rewrite elem_of_empty. split; [done|]. apply Hnq. }
      assert (foldl (get_tags_prune o) (get_tags_prune o ∅ first)
                (dict_values rest) = ∅) as ->; [|done].
      apply set_eq. intros t.
      rewrite elem_of_foldl_get_tags_prune, elem_of_get_tags_prune.
      set_solver.
    + left. eauto.
Qed.

(** The result of a successful selection: two distinct qualifying tags in
    ascending order of the string comparison, above every other
    qualifying tag. *)
Lemma get_tags_Ok target manifests prev curr :
  get_tags re_compile o target manifests = Ok (prev, curr) →
  qualifies re_compile target manifests prev ∧
  qualifies re_compile target manifests curr ∧
  prev ≠ curr ∧ String.le prev curr ∧
  ∀ t, qualifies re_compile target manifests t →
       t = curr ∨ t = prev ∨ (t ≠ prev ∧ String.le t prev).
Proof.
  destruct (get_tags_selected target manifests)
    as [(e & -> & _)|(Q & HQ & ->)]; [done|].
  simpl. case_decide as Hlen; [|done].
  destruct (last_two_inv _ Hlen) as (l & p & c & Hl).
  rewrite Hl.
  destruct (getitem_neg_last_two l p c) as [-> ->]. simpl.
  intros [= <- <-].
  pose proof (sorted_StronglySorted (iter o Q)) as Hs.
  pose proof (NoDup_iter o Q) as Hnd.
  rewrite <-(sorted_Permutation (iter o Q)) in Hnd.
  assert (∀ t, t ∈ l ++ [p; c] ↔ qualifies re_compile target manifests t)
    as Hmem.
  { intros t. by rewrite <-Hl, elem_of_sorted, elem_of_iter. }
  rewrite Hl in Hs, Hnd.
  apply StronglySorted_app in Hs as (Hlpc & Hsl & Hpc).
  apply StronglySorted_cons in Hpc as [Hpc _].
  rewrite Forall_forall in Hpc.
  apply NoDup_app in Hnd as (Hndl & Hdisj & Hndpc).
  apply NoDup_cons in Hndpc as [Hpnc _].
  split; [apply Hmem; set_solver|].
  split; [apply Hmem; set_solver|].
  split; [set_solver|].
  split; [apply Hpc; by left|].
  intros t Ht%Hmem.
  apply elem_of_app in Ht as [Ht|Ht]; [|set_solver].
  right; right. split.
  - intros ->. eapply Hdisj; [done|]. by left.
  - apply Hlpc; [done|]. by left.
Qed.

End TagSelector.

Section TagSelectorClaims.
Context (re_compile : string → option (string → bool)) (o : SetOrder).

(** C1 (as amended).  On the stable channel, when every variant lists
    "23.9", "23.10" and "23.10.0" and no other tag qualifies, "23.10.0" is
    left out for its [.0] suffix, the two remaining tags are sorted by the
    plain character-by-character string comparison, under which "23.10"
    comes before "23.9", and the pair returned is
    (previous, current) = ("23.10", "23.9"). *)
Theorem get_tags_stable_scenario (manifests : dict Manifest) :
  manifests ≠ [] →
  (∀ m t, m ∈ dict_values manifests → t ∈ scenario_tags → t ∈ RepoTags m) →
  (∀ t, qualifies re_compile "stable" manifests t → t ∈ scenario_tags) →
  ¬ qualifies re_compile "stable" manifests "23.10.0" ∧
  sorted ["23.9"; "23.10"] = ["23.10"; "23.9"] ∧
  get_tags re_compile o "stable" manifests = Ok ("23.10", "23.9").
Proof.
  intros Hne Hall Honly.
  split; [by intros (_ & _ & ? & _)|]. split; [done|].
  assert (∀ t, t ∈ ["23.9"; "23.10"] →
               qualifies re_compile "stable" manifests t) as Hq.
  { intros t Ht. split; [|split; [|split]].
    - destruct manifests as [|[k m] ms]; [done|]. exists m.
      split; [by left|]. apply Hall; [by left|]. set_solver.
    - intros m Hm. apply Hall; [done|]. set_solver.
    - by list_cases Ht.
    - exists match_STABLE_START_PATTERN. split; [done|]. by list_cases Ht. }
  assert (two_qualify re_compile "stable" manifests) as Htwo.
  { exists "23.9", "23.10". split; [done|]. split; apply Hq; set_solver. }
  destruct (get_tags_selected re_compile o "stable" manifests)
    as [(e & _ & Hnone)|(Q & HQ & Heq)].
  { destruct Htwo as (t1 & _ & _ & Ht1 & _). by apply Hnone in Ht1. }
  assert (Q = {["23.9"; "23.10"]}) as ->.
  { apply set_eq. intros t. rewrite HQ. split.
    - intros Ht. pose proof (Honly t Ht) as Hin.
      unfold scenario_tags in Hin. list_cases Hin; [set_solver..|].
      by destruct Ht as (_ & _ & ? & _).
    - intros Ht. apply Hq. set_solver. }
  rewrite Heq.
  rewrite (sorted_iter_order o elements_order). done.
Qed.

(** C7.  When fewer than two tags qualify, [get_tags] raises, and so does
    the rendering that calls it, whatever its other arguments: no
    changelog is returned.  When two or more tags qualify, [get_tags]
    returns a pair. *)
Theorem get_tags_fatal_below_two (target : string)
    (manifests : dict Manifest) :
  (¬ two_qualify re_compile target manifests →
     (∃ e, get_tags re_compile o target manifests = Raise e) ∧
     ∀ inspect_image git_log format_created handwritten pretty workdir
       prev_manifests upstream_curr upstream_prev,
       ∃ e, generate_changelog re_compile o inspect_image git_log
              format_created handwritten target pretty workdir
              prev_manifests manifests upstream_curr upstream_prev
            = Raise e) ∧
  (two_qualify re_compile target manifests →
     ∃ prev curr, get_tags re_compile o target manifests = Ok (prev, curr)).
Proof.
  assert (two_qualify re_compile target manifests ∨
          ∃ e, get_tags re_compile o target manifests = Raise e)
    as Hcases.
  { destruct (get_tags_selected re_compile o target manifests)
      as [(e & He & _)|(Q & HQ & Heq)]; [by right; exists e|].
    rewrite Heq. simpl. case_decide as Hlen; [left|right; eauto].
    apply two_elements_length in Hlen as (t1 & t2 & Hne & H1%HQ & H2%HQ).
    exists t1, t2. auto. }
  split.
  - intros Hnot. destruct Hcases as [?|[e He]]; [done|].
    split; [eauto|]. intros. exists e.
    unfold generate_changelog.
    destruct (get_package_groups o prev_manifests manifests).
    by rewrite He.
  - intros Htwo.
    destruct (get_tags_selected re_compile o target manifests)
      as [(e & _ & Hnone)|(Q & HQ & Heq)].
    { destruct Htwo as (t1 & _ & _ & Ht1 & _). by apply Hnone in Ht1. }
    rewrite Heq. simpl.
    destruct Htwo as (t1 & t2 & Hne & H1%HQ & H2%HQ).
    assert (2 ≤ length (sorted (iter o Q))) as Hlen.
    { apply two_elements_length. eauto. }
    case_decide; [|done].
    destruct (last_two_inv _ Hlen) as (l & p & c & ->).
    destruct (getitem_neg_last_two l p c) as [-> ->]. simpl. eauto.
Qed.

End TagSelectorClaims.

(** *** Strings and dictionaries *)

Lemma append_nil_r (s : string) : s +:+ "" = s.
Proof. induction s as [|a s IH]; [done|]. by rewrite <-IH at 2. Qed.

Lemma append_assoc (s1 s2 s3 : string) :
  (s1 +:+ s2) +:+ s3 = s1 +:+ (s2 +:+ s3).
Proof.
  induction s1 as [|a s1 IH]; [done|].
  change (String a ((s1 +:+ s2) +:+ s3) = String a (s1 +:+ (s2 +:+ s3))).
  by rewrite IH.
Qed.

Lemma dict_mem_true {V} (d : dict V) k :
  dict_mem d k = true ↔ is_Some (dict_get d k).
Proof. unfold dict_mem. by rewrite bool_decide_eq_true. Qed.

Lemma dict_mem_false {V} (d : dict V) k :
  dict_mem d k = false ↔ dict_get d k = None.
Proof.
  unfold dict_mem. by rewrite bool_decide_eq_false, eq_None_not_Some.
Qed.

Lemma dict_mem_get {V} (d : dict V) k :
  dict_mem d k = if dict_get d k is Some _ then true else false.
Proof.
  unfold dict_mem. destruct (dict_get d k); [by apply bool_decide_eq_true_2|].
  apply bool_decide_eq_false_2. by intros [? ?].
Qed.

Lemma dict_getitem_Some {V} (d : dict V) k v :
  dict_get d k = Some v → dict_getitem d k = Ok v.
Proof. unfold dict_getitem. by intros ->. Qed.

Lemma dict_getitem_None {V} (d : dict V) k :
  dict_get d k = None → dict_getitem d k = Raise (KeyError k).
Proof. unfold dict_getitem. by intros ->. Qed.

(** *** The diff engine *)

Section DiffEngine.
Context (prev curr : dict string).

Abbreviation skip := (calculate_changes_skip prev curr).
Abbreviation step := (calculate_changes_step prev curr).
Abbreviation classify l := (calculate_changes_classify l prev curr).

Lemma classify_snoc l x :
  classify (l ++ [x]) = step (classify l) x.
Proof. unfold calculate_changes_classify. by rewrite foldl_app. Qed.

Lemma skip_blacklisted bl x : x ∈ BLACKLIST_VERSIONS → skip bl x = true.
Proof.
  intros Hx. unfold calculate_changes_skip. by rewrite bool_decide_eq_true_2.
Qed.

Lemma skip_false bl x :
  skip bl x = false ↔
  (x ∉ BLACKLIST_VERSIONS) ∧
  (∀ v, dict_get curr x = Some v → Some v ∉ bl) ∧
  (∀ v, dict_get prev x = Some v → Some v ∉ bl).
Proof.
  unfold calculate_changes_skip. rewrite !dict_mem_get.
  case_bool_decide as HB; [split; [done|tauto]|].
  destruct (dict_get curr x) as [vc|], (dict_get prev x) as [vp|]; simpl;
    repeat case_bool_decide; split; try done.
  all: try (intros (_ & Hc & Hp); exfalso;
            first [by eapply Hc | by eapply Hp]).
  all: intros _; split; [done|]; split; by intros v [= <-].
Qed.

Lemma skip_mono bl bl' x : bl ⊆ bl' → skip bl x = true → skip bl' x = true.
Proof.
  intros Hsub Hs. destruct (skip bl' x) eqn:Hs'; [done|].
  apply skip_false in Hs' as (? & Hc & Hp).
  assert (skip bl x = false); [|congruence].
  apply skip_false. split; [done|]. split; intros v Hv Hin.
  - by eapply Hc, Hsub.
  - by eapply Hp, Hsub.
Qed.

(** One iteration: what it appends and what it adds to the suppressed
    versions. *)
Lemma step_skipped st x : skip (blacklist_ver st) x = true → step st x = st.
Proof. unfold calculate_changes_step. by intros ->. Qed.

Lemma step_added st x :
  added (step st x) =
    if skip (blacklist_ver st) x then added st
    else if dict_get prev x is None then added st ++ [x] else added st.
Proof.
  unfold calculate_changes_step. rewrite !dict_mem_get.
  destruct (skip _ x); [done|].
  destruct (dict_get prev x), (dict_get curr x); simpl; try done.
  by case_bool_decide.
Qed.

Lemma step_removed st x :
  removed (step st x) =
    if skip (blacklist_ver st) x then removed st
    else match dict_get prev x, dict_get curr x with
         | Some _, None => removed st ++ [x]
         | _, _ => removed st
         end.
Proof.
  unfold calculate_changes_step. rewrite !dict_mem_get.
  destruct (skip _ x); [done|].
  destruct (dict_get prev x), (dict_get curr x); simpl; try done.
  by case_bool_decide.
Qed.

Lemma step_changed st x :
  changed (step st x) =
    if skip (blacklist_ver st) x then changed st
    else match dict_get prev x, dict_get curr x with
         | Some p, Some c =>
             if decide (p = c) then changed st else changed st ++ [x]
         | _, _ => changed st
         end.
Proof.
  unfold calculate_changes_step. rewrite !dict_mem_get.
  destruct (skip _ x); [done|].
  destruct (dict_get prev x), (dict_get curr x); simpl; try done.
  case_bool_decide; case_decide; simpl; congruence.
Qed.

Lemma step_blacklist_ver st x :
  blacklist_ver (step st x) =
    if skip (blacklist_ver st) x then blacklist_ver st
    else {[dict_get prev x]} ∪ ({[dict_get curr x]} ∪ blacklist_ver st).
Proof.
  unfold calculate_changes_step.
  destruct (skip _ x); [done|]. by repeat case_match.
Qed.

Lemma step_blacklist_mono st x :
  blacklist_ver st ⊆ blacklist_ver (step st x).
Proof. rewrite step_blacklist_ver. case_match; set_solver. Qed.

Lemma classify_blacklist_mono l1 l2 :
  blacklist_ver (classify l1) ⊆ blacklist_ver (classify (l1 ++ l2)).
Proof.
  induction l2 as [|x l2 IH] using rev_ind.
  - by rewrite app_nil_r.
  - rewrite (assoc_L (++)), classify_snoc.
    etrans; [apply IH|apply step_blacklist_mono].
Qed.

Lemma classified_nil y : ¬ classified [] prev curr y.
Proof. intros (l1 & l2 & Heq & _). by destruct l1. Qed.

Lemma classified_snoc l x y :
  classified (l ++ [x]) prev curr y ↔
  classified l prev curr y ∨
  (y = x ∧ skip (blacklist_ver (classify l)) x = false).
Proof.
  split.
  - intros (l1 & l2 & Heq & Hs).
    destruct l2 as [|z l2 _] using rev_ind.
    + apply app_inj_tail in Heq as [-> ->]. by right.
    + rewrite app_comm_cons, (assoc_L (++)) in Heq.
      apply app_inj_tail in Heq as [-> ->]. left. by exists l1, l2.
  - intros [(l1 & l2 & -> & Hs)|[-> Hs]].
    + exists l1, (l2 ++ [x]). split; [|done].
      by rewrite <-(assoc_L (++)).
    + by exists l, [].
Qed.

Lemma classified_elem_of pkgs y :
  classified pkgs prev curr y → y ∈ pkgs ∧ y ∉ BLACKLIST_VERSIONS.
Proof.
  intros (l1 & l2 & -> & Hs). split; [set_solver|].
  by apply skip_false in Hs as (? & _).
Qed.

(** The three sequences, in terms of the packages that are classified. *)
Lemma elem_of_added pkgs y :
  y ∈ added (classify pkgs) ↔
  classified pkgs prev curr y ∧ dict_get prev y = None.
Proof.
  induction pkgs as [|x pkgs IH] using rev_ind.
  { simpl. split; [by intros ?%elem_of_nil|].
    by intros [?%classified_nil _]. }
  rewrite classify_snoc, step_added, classified_snoc.
  destruct (skip _ x) eqn:Hs; [rewrite IH; naive_solver|].
  destruct (dict_get prev x) eqn:Hp.
  - rewrite IH. naive_solver.
  - rewrite elem_of_app, list_elem_of_singleton, IH. naive_solver.
Qed.

Lemma elem_of_removed pkgs y :
  y ∈ removed (classify pkgs) ↔
  classified pkgs prev curr y ∧ is_Some (dict_get prev y)
  ∧ dict_get curr y = None.
Proof.
  induction pkgs as [|x pkgs IH] using rev_ind.
  { simpl. split; [by intros ?%elem_of_nil|].
    by intros [?%classified_nil _]. }
  rewrite classify_snoc, step_removed, classified_snoc.
  destruct (skip _ x) eqn:Hs; [rewrite IH; naive_solver|].
  destruct (dict_get prev x) eqn:Hp, (dict_get curr x) eqn:Hc.
  - rewrite IH. naive_solver.
  - rewrite elem_of_app, list_elem_of_singleton, IH.
    split; [intros [?| ->]|]; [naive_solver| |naive_solver].
    rewrite Hp, Hc. eauto.
  - rewrite IH. split; [naive_solver|].
    intros [[?|[-> _]] [[? ?] ?]]; [auto|congruence].
  - rewrite IH. split; [naive_solver|].
    intros [[?|[-> _]] [[? ?] ?]]; [auto|congruence].
Qed.

Lemma elem_of_changed pkgs y :
  y ∈ changed (classify pkgs) ↔
  classified pkgs prev curr y ∧ is_Some (dict_get prev y)
  ∧ is_Some (dict_get curr y) ∧ dict_get prev y ≠ dict_get curr y.
Proof.
  induction pkgs as [|x pkgs IH] using rev_ind.
  { simpl. split; [by intros ?%elem_of_nil|].
    by intros [?%classified_nil _]. }
  rewrite classify_snoc, step_changed, classified_snoc.
  destruct (skip _ x) eqn:Hs; [rewrite IH; naive_solver|].
  destruct (dict_get prev x) as [p|] eqn:Hp,
           (dict_get curr x) as [c|] eqn:Hc.
  - case_decide as Hpc.
    + rewrite IH. split; [naive_solver|].
      intros [[?|[-> _]] (Hsp & Hsc & Hne)]; [auto|congruence].
    + rewrite elem_of_app, list_elem_of_singleton, IH.
      split; [intros [?| ->]|]; [naive_solver| |naive_solver].
      rewrite Hp, Hc. split; [auto|]. split; [eauto|]. split; [eauto|].
      congruence.
  - rewrite IH. split; [naive_solver|].
    intros [[?|[-> _]] (Hsp & [? ?] & Hne)]; [auto|congruence].
  - rewrite IH. split; [naive_solver|].
    intros [[?|[-> _]] ([? ?] & Hsc & Hne)]; [auto|congruence].
  - rewrite IH. split; [naive_solver|].
    intros [[?|[-> _]] ([? ?] & Hsc & Hne)]; [auto|congruence].
Qed.


(** A version that is an anchor's current version is suppressed from the
    start and stays so. *)
Lemma anchor_version_suppressed a v l :
  a ∈ BLACKLIST_VERSIONS → dict_get curr a = Some v →
  Some v ∈ blacklist_ver (classify l).
Proof.
  intros Ha Hv. apply (classify_blacklist_mono [] l).
  change (Some v ∈ (list_to_set (dict_get curr <$> BLACKLIST_VERSIONS)
                     : gset (option string))).
  apply elem_of_list_to_set, list_elem_of_fmap. by exists a.
Qed.

Lemma anchor_version_not_classified pkgs a v x :
  a ∈ BLACKLIST_VERSIONS → dict_get curr a = Some v →
  dict_get curr x = Some v → ¬ classified pkgs prev curr x.
Proof.
  intros Ha Hv Hx (l1 & l2 & _ & Hs).
  apply skip_false in Hs as (_ & Hc & _).
  eapply Hc; [done|]. by eapply anchor_version_suppressed.
Qed.

(** Where a suppressed version comes from: an anchor's current version,
    or a version of a package met earlier. *)
Lemma blacklist_ver_origin l v :
  Some v ∈ blacklist_ver (classify l) →
  (∃ k, k ∈ BLACKLIST_VERSIONS ∧ dict_get curr k = Some v) ∨
  (∃ y, y ∈ l ∧ (dict_get prev y = Some v ∨ dict_get curr y = Some v)).
Proof.
  induction l as [|x l IH] using rev_ind.
  - intros Hin.
    change (Some v ∈ (list_to_set (dict_get curr <$> BLACKLIST_VERSIONS)
                       : gset (option string))) in Hin.
    apply elem_of_list_to_set, list_elem_of_fmap in Hin as (k & ? & ?).
    left. by exists k.
  - rewrite classify_snoc, step_blacklist_ver.
    assert (Some v ∈ blacklist_ver (classify l) →
      (∃ k, k ∈ BLACKLIST_VERSIONS ∧ dict_get curr k = Some v) ∨
      (∃ y, y ∈ l ++ [x] ∧
            (dict_get prev y = Some v ∨ dict_get curr y = Some v))) as IH'.
    { intros [?|(y & ? & ?)]%IH; [by left|right].
      exists y. split; [set_solver|done]. }
    case_match; [done|].
    rewrite !elem_of_union, !elem_of_singleton.
    intros [Hp|[Hc|?]]; [| |auto]; right; exists x;
      (split; [set_solver|auto]).
Qed.

(** A package none of whose versions is an anchor's current version or a
    version of a package met before it is classified. *)
Lemma classified_unshared l1 x l2 :
  x ∉ BLACKLIST_VERSIONS →
  (∀ v, dict_get prev x = Some v ∨ dict_get curr x = Some v →
        (∀ k, k ∈ BLACKLIST_VERSIONS → dict_get curr k ≠ Some v) ∧
        (∀ y, y ∈ l1 → dict_get prev y ≠ Some v ∧ dict_get curr y ≠ Some v)) →
  classified (l1 ++ x :: l2) prev curr x.
Proof.
  intros Hx Hv. exists l1, l2. split; [done|].
  apply skip_false. split; [done|].
  split; intros v Hxv Hin; destruct (Hv v) as [Hk Hy]; auto;
    apply blacklist_ver_origin in Hin as [(k & ? & ?)|(y & ? & ?)];
    naive_solver.
Qed.

End DiffEngine.

(** Rendering the three sequences. *)
Lemma append_rows_ok row f l out :
  (∀ x, x ∈ l → row x = Ok (f x)) →
  append_rows row l out = Ok (out +:+ rows f l).
Proof.
  revert out. induction l as [|x l IH]; intros out Hrow; simpl.
  - by rewrite append_nil_r.
  - rewrite (Hrow x) by (by left). simpl.
    rewrite IH by (intros; apply Hrow; by right).
    by rewrite append_assoc.
Qed.

Lemma append_rows_add_raise (curr : dict string) l out x :
  x ∈ l → dict_get curr x = None →
  ∃ k, k ∈ l ∧ dict_get curr k = None ∧
       append_rows (λ pkg, v ← dict_getitem curr pkg; Ok (PATTERN_ADD pkg v))
         l out = Raise (KeyError k).
Proof.
  revert out. induction l as [|y l IH]; intros out Hx Hnone.
  { by apply elem_of_nil in Hx. }
  destruct (dict_get curr y) as [v|] eqn:Hy.
  - apply elem_of_cons in Hx as [->|Hx]; [congruence|].
    destruct (IH (out +:+ PATTERN_ADD y v) Hx Hnone) as (k & ? & ? & Heq).
    exists k. split; [by right|]. split; [done|].
    simpl. rewrite (dict_getitem_Some _ _ _ Hy). exact Heq.
  - exists y. split; [by left|]. split; [done|].
    simpl. by rewrite (dict_getitem_None _ _ Hy).
Qed.

(** The text returned when every added package has a current version. *)
Lemma calculate_changes_Ok pkgs prev curr :
  let st := calculate_changes_classify pkgs prev curr in
  (∀ x, x ∈ added st → is_Some (dict_get curr x)) →
  calculate_changes pkgs prev curr =
    Ok (rows (row_add curr) (added st) +:+
        rows (row_change prev curr) (changed st) +:+
        rows (row_remove prev) (removed st)).
Proof.
  intros st Hadd. unfold calculate_changes. fold st.
  rewrite (append_rows_ok _ (row_add curr)); simpl.
  2:{ intros x [v Hv]%Hadd. unfold row_add.
      by rewrite (dict_getitem_Some _ _ _ Hv), Hv. }
  rewrite (append_rows_ok _ (row_change prev curr)); simpl.
  2:{ intros x ([p Hp] & [c Hc] & _)%elem_of_changed%proj2.
      unfold row_change.
      by rewrite (dict_getitem_Some _ _ _ Hp), (dict_getitem_Some _ _ _ Hc),
        Hp, Hc. }
  rewrite (append_rows_ok _ (row_remove prev)); simpl.
  2:{ intros x ([p Hp] & _)%elem_of_removed%proj2. unfold row_remove.
      by rewrite (dict_getitem_Some _ _ _ Hp), Hp. }
  by rewrite append_assoc.
Qed.


(** C2 (as amended).  For every universe and every pair of version maps:
    each name of the universe has exactly one of the four outcomes added,
    changed, removed, not reported; every reported name is in the universe;
    an added name is absent from the previous map, a removed name is in the
    previous map and absent from the current one, a changed name is in both
    with different versions.  Conversely a name that shares no version (it
    is no anchor, and none of its versions is the current version of an
    anchor or a version of a name listed before it) is added when it is
    absent from the previous map, removed when it is only absent from the
    current map, changed when both maps hold it with different versions, and
    not reported when both hold the same version.  An anchor is not
    reported, and neither is a name whose current version is the current
    version of an anchor. *)
Theorem calculate_changes_partition (pkgs : list string)
    (prev curr : dict string) :
  let st := calculate_changes_classify pkgs prev curr in
  (∀ x, x ∈ pkgs →
        ∃ oc, has_outcome st x oc ∧ ∀ oc', has_outcome st x oc' → oc' = oc) ∧
  (∀ x, x ∈ added st ∨ x ∈ changed st ∨ x ∈ removed st → x ∈ pkgs) ∧
  (∀ x, (has_outcome st x Added → dict_get prev x = None) ∧
        (has_outcome st x Removed →
         is_Some (dict_get prev x) ∧ dict_get curr x = None) ∧
        (has_outcome st x Changed →
         is_Some (dict_get prev x) ∧ is_Some (dict_get curr x) ∧
         dict_get prev x ≠ dict_get curr x)) ∧
  (∀ x, unshared pkgs prev curr x →
        (dict_get prev x = None → has_outcome st x Added) ∧
        (is_Some (dict_get prev x) → dict_get curr x = None →
         has_outcome st x Removed) ∧
        (is_Some (dict_get prev x) → is_Some (dict_get curr x) →
         dict_get prev x ≠ dict_get curr x → has_outcome st x Changed) ∧
        (is_Some (dict_get prev x) → dict_get prev x = dict_get curr x →
         has_outcome st x NotReported)) ∧
  (∀ x, x ∈ BLACKLIST_VERSIONS → has_outcome st x NotReported) ∧
  (∀ x a v, a ∈ BLACKLIST_VERSIONS → dict_get curr a = Some v →
            dict_get curr x = Some v → has_outcome st x NotReported).
Proof.
  intros st.
  assert (∀ x, ¬ classified pkgs prev curr x → has_outcome st x NotReported)
    as Hnot.
  { intros x Hx. unfold has_outcome, st.
    rewrite elem_of_added, elem_of_changed, elem_of_removed. tauto. }
  split; [|split; [|split; [|split; [|split]]]].
  - intros x _.
    destruct (decide (x ∈ added st)) as [Ha|Ha];
      [|destruct (decide (x ∈ changed st)) as [Hc|Hc];
        [|destruct (decide (x ∈ removed st)) as [Hr|Hr]]].
    + exists Added. split; [done|].
      pose proof Ha as Ha'. apply elem_of_added in Ha' as [_ Hp].
      intros [] Hoc; simpl in Hoc; [done|..].
      * apply elem_of_changed in Hoc as (_ & [? ?] & _). congruence.
      * apply elem_of_removed in Hoc as (_ & [? ?] & _). congruence.
      * by destruct Hoc as (? & _).
    + exists Changed. split; [done|].
      pose proof Hc as Hc'. apply elem_of_changed in Hc' as (_ & _ & [? ?] & _).
      intros [] Hoc; simpl in Hoc; [done|done|..].
      * apply elem_of_removed in Hoc as (_ & _ & ?). congruence.
      * by destruct Hoc as (_ & ? & _).
    + exists Removed. split; [done|].
      intros [] Hoc; simpl in Hoc; [done..|]. by destruct Hoc as (_ & _ & ?).
    + exists NotReported. split; [done|]. by intros [] Hoc.
  - intros x. unfold st.
    rewrite elem_of_added, elem_of_changed, elem_of_removed.
    intros [[Hx _]|[[Hx _]|[Hx _]]]; by apply classified_elem_of in Hx as [? _].
  - intros x. unfold has_outcome, st.
    rewrite elem_of_added, elem_of_changed, elem_of_removed.
    split; [by intros [_ ?]|]. split; [by intros [_ ?]|]. by intros [_ ?].
  - intros x [Hanchor (l1 & l2 & -> & Hv)].
    assert (classified (l1 ++ x :: l2) prev curr x) as Hx.
    { apply classified_unshared; [done|]. intros v Hxv.
      destruct (Hv v Hxv) as [Hk Hy]. split; [done|].
      intros y Hin. split; intros Hyv; apply (Hy y Hin); [by left|by right]. }
    unfold has_outcome, st.
    rewrite elem_of_added, elem_of_changed, elem_of_removed.
    split; [auto|]. split; [auto|]. split; [auto|].
    intros Hsome Heq. split; [|split].
    + intros (_ & Hnone). destruct Hsome as [? ?]. congruence.
    + intros (_ & _ & _ & Hne). congruence.
    + intros (_ & _ & Hnone). destruct Hsome as [? ?]. congruence.
  - intros x Hx. apply Hnot. by intros [_ ?]%classified_elem_of.
  - intros x a v Ha Hv Hx. apply Hnot.
    by eapply anchor_version_not_classified.
Qed.

(** C3.  In the scenario the added sequence is [bar], the changed sequence
    is [foo] and nothing is removed; "kernel" is skipped as an anchor; "foo"
    and "bar" pass the skip tests at their turn, although by then the
    suppressed versions hold the anchor version "6.2" and, after "foo", its
    versions "1.0" and "1.1"; at the end they also hold "2.0" of "bar". *)
Theorem calculate_changes_scenario :
  let st := calculate_changes_classify scenario_universe scenario_prev
              scenario_curr in
  let bl := λ l, blacklist_ver
                   (calculate_changes_classify l scenario_prev scenario_curr) in
  added st = ["bar"] ∧ changed st = ["foo"] ∧ removed st = [] ∧
  calculate_changes scenario_universe scenario_prev scenario_curr
    = Ok (PATTERN_ADD "bar" "2.0" +:+ PATTERN_CHANGE "foo" "1.0" "1.1") ∧
  "kernel" ∈ BLACKLIST_VERSIONS ∧
  bl [] = {[Some "6.2"; None]} ∧
  calculate_changes_skip scenario_prev scenario_curr (bl []) "foo" = false ∧
  bl ["foo"] = {[Some "1.0"; Some "1.1"]} ∪ bl [] ∧
  calculate_changes_skip scenario_prev scenario_curr (bl ["foo"]) "kernel"
    = true ∧
  bl ["foo"; "kernel"] = bl ["foo"] ∧
  calculate_changes_skip scenario_prev scenario_curr (bl ["foo"; "kernel"])
    "bar" = false ∧
  blacklist_ver st = {[None; Some "2.0"]} ∪ bl ["foo"].
Proof. repeat split; try (vm_compute; reflexivity). set_solver. Qed.


(** C8.  [calculate_changes] returns a text when every classified name of
    the universe is in the previous or in the current map.  A name of the
    universe that is in neither map and is not an anchor passes the skip
    tests, lands in the added sequence, and the formatting of the added rows
    then raises [KeyError] on a current version that does not exist: the
    call returns no text. *)
Theorem calculate_changes_partial (pkgs : list string)
    (prev curr : dict string) :
  ((∀ x, classified pkgs prev curr x →
         is_Some (dict_get prev x) ∨ is_Some (dict_get curr x)) →
   ∃ out, calculate_changes pkgs prev curr = Ok out) ∧
  (∀ x, x ∈ pkgs → x ∉ BLACKLIST_VERSIONS →
        dict_get prev x = None → dict_get curr x = None →
        classified pkgs prev curr x ∧
        x ∈ added (calculate_changes_classify pkgs prev curr) ∧
        ∃ k, dict_get curr k = None ∧
             calculate_changes pkgs prev curr = Raise (KeyError k)).
Proof.
  split.
  - intros Hpre. eexists. apply calculate_changes_Ok.
    intros x [Hx Hnone]%elem_of_added.
    destruct (Hpre x Hx) as [[? ?]|?]; [congruence|done].
  - intros x Hx Hanchor Hp Hc.
    assert (classified pkgs prev curr x) as Hcl.
    { apply list_elem_of_split in Hx as (l1 & l2 & ->).
      apply classified_unshared; [done|]. intros v [?|?]; congruence. }
    assert (x ∈ added (calculate_changes_classify pkgs prev curr)) as Hadd
      by by apply elem_of_added.
    split; [done|]. split; [done|].
    destruct (append_rows_add_raise curr _ "" x Hadd Hc) as (k & _ & ? & Heq).
    exists k. split; [done|].
    unfold calculate_changes. by rewrite Heq.
Qed.

(** *** Group reconciliation *)

Section GroupReconciler.
Context (o : SetOrder).

Lemma group_loop_false selected keep images acc x :
  x ∈ (group_loop o selected keep images (acc, false)).1 ↔
  x ∈ acc ∧ ∀ i s, i ∈ images → selected i = Some s → x ∈ s.
Proof.
  revert acc. induction images as [|i images IH]; intros acc.
  { simpl. split; [|tauto]. intros ?. split; [done|].
    by intros ?? ?%elem_of_nil. }
  unfold group_loop in *. simpl.
  destruct (selected i) as [s|] eqn:Hi.
  - rewrite IH, elem_of_retain_in. split.
    + intros [[? ?] Hall]. split; [done|].
      intros i' s' [->|?]%elem_of_cons ?; [congruence|eauto].
    + intros [? Hall]. split; [split; [done|]|].
      * apply (Hall i); [by left|done].
      * intros i' s' ??. apply (Hall i'); [by right|done].
  - rewrite IH. split; intros [? Hall]; (split; [done|]).
    + intros i' s' [->|?]%elem_of_cons ?; [congruence|eauto].
    + intros i' s' ??. apply (Hall i'); [by right|done].
Qed.

Lemma group_loop_true selected keep images x :
  x ∈ (group_loop o selected keep images (∅, true)).1 ↔
  keep x = true ∧ (∃ i s, i ∈ images ∧ selected i = Some s) ∧
  ∀ i s, i ∈ images → selected i = Some s → x ∈ s.
Proof.
  induction images as [|i images IH].
  { simpl. rewrite elem_of_empty. split; [done|].
    by intros (_ & (? & ? & ?%elem_of_nil & _) & _). }
  unfold group_loop in *. simpl.
  destruct (selected i) as [s|] eqn:Hi.
  - pose proof (group_loop_false selected keep images
                  (add_all o keep ∅ s) x) as Hf.
    unfold group_loop in Hf. rewrite Hf, elem_of_add_all, elem_of_empty.
    split.
    + intros [[[]|[? ?]] Hall]. split; [done|]. split.
      * exists i, s. split; [by left|done].
      * intros i' s' [->|?]%elem_of_cons ?; [congruence|eauto].
    + intros (? & _ & Hall). split.
      * right. split; [|done]. apply (Hall i); [by left|done].
      * intros i' s' ??. apply (Hall i'); [by right|done].
  - rewrite IH. split; intros (? & (i' & s' & Hi' & ?) & Hall);
      (split; [done|]); split.
    + exists i', s'. split; [by right|done].
    + intros i'' s'' [->|?]%elem_of_cons ?; [congruence|eauto].
    + apply elem_of_cons in Hi' as [->|?]; [congruence|]. by exists i', s'.
    + intros i'' s'' ??. apply (Hall i''); [by right|done].
Qed.

Lemma get_package_groups_common_loop images pkg :
  get_package_groups_common o images pkg =
  (group_loop o (λ i, pkg !! i.1.1) (λ _, true) images (∅, true)).1.
Proof.
  unfold get_package_groups_common, group_loop. f_equal.
  generalize (∅ : gset string, true).
  induction images as [|[[img base] de] images IH]; intros [acc first];
    [done|].
  simpl. destruct (pkg !! img); apply IH.
Qed.

Lemma get_package_groups_other_loop images pkg common t :
  get_package_groups_other o images pkg common t =
  (group_loop o (group_selects pkg t) (λ p, bool_decide (p ∉ common))
     images (∅, true)).1.
Proof.
  unfold get_package_groups_other, group_loop, group_selects. f_equal.
  generalize (∅ : gset string, true).
  induction images as [|[[img base] de] images IH]; intros [acc first];
    [done|].
  simpl. destruct (pkg !! img); [|apply IH].
  destruct (group_skips t base de); apply IH.
Qed.

(** The common set: the names every image of the table has. *)
Lemma elem_of_common images pkg x :
  x ∈ get_package_groups_common o images pkg ↔
  (∃ i s, i ∈ images ∧ pkg !! i.1.1 = Some s) ∧
  ∀ i s, i ∈ images → pkg !! i.1.1 = Some s → x ∈ s.
Proof. rewrite get_package_groups_common_loop, group_loop_true. tauto. Qed.

(** A group set: the names outside the common set that every image of
    the group has. *)
Lemma elem_of_other images pkg common t x :
  x ∈ get_package_groups_other o images pkg common t ↔
  (x ∉ common) ∧ (∃ i s, i ∈ images ∧ group_selects pkg t i = Some s) ∧
  ∀ i s, i ∈ images → group_selects pkg t i = Some s → x ∈ s.
Proof.
  rewrite get_package_groups_other_loop, group_loop_true.
  by rewrite bool_decide_eq_true.
Qed.

Lemma lookup_foldl_insert {V} (f : string → V) (l : list string)
    (m : gmap string V) k :
  foldl (λ m k, <[k := f k]> m) m l !! k =
  if decide (k ∈ l) then Some (f k) else m !! k.
Proof.
  revert m. induction l as [|k' l IH]; intros m; cbn [foldl].
  - by rewrite decide_False by apply not_elem_of_nil.
  - rewrite IH. destruct (decide (k ∈ l)) as [Hin|Hin].
    + by rewrite decide_True by (by right).
    + destruct (decide (k = k')) as [->|Hne].
      * rewrite lookup_insert_eq. by rewrite decide_True by (by left).
      * rewrite lookup_insert_ne by done.
        rewrite decide_False; [done|]. by intros [?|?]%elem_of_cons.
Qed.

Lemma lookup_get_package_groups_pkg npkg ppkg k :
  get_package_groups_pkg o npkg ppkg !! k =
  if decide (k ∈ dict_keys npkg ∨ k ∈ dict_keys ppkg)
  then Some (names_of npkg k ∪ names_of ppkg k) else None.
Proof.
  unfold get_package_groups_pkg. rewrite lookup_foldl_insert.
  rewrite lookup_empty.
  destruct (decide (k ∈ dict_keys npkg ∨ k ∈ dict_keys ppkg)) as [Hk|Hk].
  - rewrite decide_True; [done|].
    rewrite elem_of_iter, elem_of_union, !elem_of_list_to_set. done.
  - rewrite decide_False; [done|].
    rewrite elem_of_iter, elem_of_union, !elem_of_list_to_set. done.
Qed.

Lemma dict_keys_get_Some {V} (d : dict V) k :
  k ∈ dict_keys d ↔ is_Some (dict_get d k).
Proof.
  unfold dict_keys. induction d as [|[k' v] d IH]; simpl.
  - rewrite elem_of_nil. split; [done|]. by intros [? ?].
  - rewrite elem_of_cons, IH. case_decide; naive_solver.
Qed.

(** The table of [get_package_groups] holds the universe of every variant
    that has a package list. *)
Lemma lookup_pkg_table prev manifests img s :
  get_package_groups_pkg o (get_packages manifests) (get_packages prev)
    !! img = Some s ↔
  has_packages prev manifests img ∧ s = variant_universe prev manifests img.
Proof.
  rewrite lookup_get_package_groups_pkg. unfold has_packages.
  case_decide; naive_solver.
Qed.

(** For any list of images: a group set shares nothing with the common
    set, and both are made of names of the universes in the table. *)
Lemma group_loops_disjoint images pkg t x :
  let common := get_package_groups_common o images pkg in
  (x ∈ get_package_groups_other o images pkg common t → x ∉ common) ∧
  (x ∈ common ∨ x ∈ get_package_groups_other o images pkg common t →
   ∃ i s, i ∈ images ∧ pkg !! i.1.1 = Some s ∧ x ∈ s).
Proof.
  intros common. split.
  - by intros (? & _)%elem_of_other.
  - intros [((i & s & Hi & Hs) & Hall)%elem_of_common
           |(_ & (i & s & Hi & Hs) & Hall)%elem_of_other].
    + exists i, s. eauto.
    + exists i, s. split; [done|]. split; [|eauto].
      unfold group_selects in Hs. destruct (pkg !! i.1.1); [|done].
      by destruct (group_skips _ _ _); simplify_eq.
Qed.

(** With the images of this repository, all of them desktop images with
    the KDE desktop, no group keeps a name. *)
Lemma get_images_other_empty pkg t :
  t ∈ dict_keys OTHER_NAMES →
  get_package_groups_other o get_images pkg
    (get_package_groups_common o get_images pkg) t = ∅.
Proof.
  intros Ht. apply set_eq. intros x. rewrite elem_of_empty.
  split; [|done]. intros (Hnot & (i & s & Hi & Hs) & Hall)%elem_of_other.
  apply Hnot, elem_of_common.
  assert (∀ i s, i ∈ get_images → group_selects pkg t i = Some s →
                 (t = "desktop" ∨ t = "kde")) as Hdk.
  { intros i' s' Hi' Hs'. unfold group_selects in Hs'.
    destruct (pkg !! i'.1.1); [|done].
    unfold get_images, IMAGES in Hi'. simpl in Hi'.
    unfold dict_keys, OTHER_NAMES in Ht. simpl in Ht.
    list_cases Hi'; list_cases Ht; simpl in Hs'; try done; auto. }
  destruct (Hdk i s Hi Hs) as [->| ->].
  - split.
    + exists i, s. split; [done|]. unfold group_selects in Hs.
      destruct (pkg !! i.1.1); [|done].
      by destruct (group_skips _ _ _); simplify_eq.
    + intros i' s' Hi' Hs'. apply (Hall i'); [done|].
      unfold group_selects. rewrite Hs'.
      unfold get_images, IMAGES in Hi'. simpl in Hi'. by list_cases Hi'.
  - split.
    + exists i, s. split; [done|]. unfold group_selects in Hs.
      destruct (pkg !! i.1.1); [|done].
      by destruct (group_skips _ _ _); simplify_eq.
    + intros i' s' Hi' Hs'. apply (Hall i'); [done|].
      unfold group_selects. rewrite Hs'.
      unfold get_images, IMAGES in Hi'. simpl in Hi'. by list_cases Hi'.
Qed.

(** The shape of the result of [get_package_groups]. *)
Lemma get_package_groups_shape prev manifests :
  get_package_groups o prev manifests =
  (sorted (iter o (get_package_groups_common o get_images
                     (get_package_groups_pkg o (get_packages manifests)
                        (get_packages prev)))),
   [("desktop", []); ("deck", []); ("kde", []); ("nvidia", [])]).
Proof.
  unfold get_package_groups. f_equal.
  unfold dict_keys, OTHER_NAMES. simpl.
  rewrite !get_images_other_empty
    by (unfold dict_keys, OTHER_NAMES; simpl; set_solver).
  assert (sorted (iter o ∅) = []) as ->; [|done].
  apply Permutation_nil_r. rewrite sorted_Permutation, (iter_perm o).
  by rewrite elements_empty.
Qed.

End GroupReconciler.

Lemma sorted_iter_NoDup (o : SetOrder) (s : gset string) :
  StronglySorted String.le (sorted (iter o s)) ∧ NoDup (sorted (iter o s)).
Proof.
  split; [apply sorted_StronglySorted|].
  rewrite sorted_Permutation. apply NoDup_iter.
Qed.

(** C5.  In the result of [get_package_groups] the common sequence and the
    group sequences are pairwise disjoint, no group holds a name of the
    common sequence, every name of any of them is in the universe of a
    variant of [IMAGES] that has a package list, and every sequence is in
    ascending string order without repetition. *)
Theorem get_package_groups_disjoint (o : SetOrder)
    (prev manifests : dict Manifest) :
  let common := (get_package_groups o prev manifests).1 in
  let groups := (get_package_groups o prev manifests).2 in
  let family := common :: groups.*2 in
  (∀ i j l1 l2 x, i ≠ j → family !! i = Some l1 → family !! j = Some l2 →
                  x ∈ l1 → x ∉ l2) ∧
  (∀ k v x, (k, v) ∈ groups → x ∈ v → x ∉ common) ∧
  (∀ l x, l ∈ family → x ∈ l →
          ∃ img, img ∈ IMAGES ∧ has_packages prev manifests img ∧
                 x ∈ variant_universe prev manifests img) ∧
  (∀ l, l ∈ family → StronglySorted String.le l ∧ NoDup l).
Proof.
  rewrite get_package_groups_shape. simpl.
  set (pkg := get_package_groups_pkg o _ _).
  set (common := get_package_groups_common o get_images pkg).
  assert (∀ l, l ∈ [[]; []; []; []] → l = ([] : list string)) as Hnil.
  { intros l Hl. by list_cases Hl. }
  split; [|split; [|split]].
  - intros i j l1 l2 x Hij H1 H2 Hx1 Hx2.
    destruct i as [|i], j as [|j]; [done|..]; simpl in H1, H2.
    + apply list_elem_of_lookup_2, Hnil in H2 as ->. by apply elem_of_nil in Hx2.
    + apply list_elem_of_lookup_2, Hnil in H1 as ->. by apply elem_of_nil in Hx1.
    + apply list_elem_of_lookup_2, Hnil in H1 as ->. by apply elem_of_nil in Hx1.
  - intros k v x Hkv Hx.
    apply (list_elem_of_fmap_2 snd) in Hkv. simpl in Hkv.
    apply Hnil in Hkv as ->. by apply elem_of_nil in Hx.
  - intros l x [->|Hl]%elem_of_cons Hx;
      [|apply Hnil in Hl as ->; by apply elem_of_nil in Hx].
    rewrite elem_of_sorted, elem_of_iter in Hx.
    destruct (proj2 (group_loops_disjoint o get_images pkg "kde" x))
      as (i & s & Hi & Hs & Hxs); [by left|].
    apply lookup_pkg_table in Hs as [Hhas ->].
    exists i.1.1. split; [|done].
    unfold get_images in Hi. apply list_elem_of_fmap in Hi as (img & -> & ?).
    done.
  - intros l [->|Hl]%elem_of_cons.
    + apply sorted_iter_NoDup.
    + apply Hnil in Hl as ->. split; constructor.
Qed.

(** C9.  Whatever the image name, [get_images] classifies its base as
    "deck" or "desktop", in which "nvidia" does not occur, so the "nvidia"
    group skips every image: its set is empty for any list of images, the
    result of [get_package_groups] maps "nvidia" to the empty sequence, and
    the rendering adds no section for it. *)
Theorem nvidia_group_empty (o : SetOrder) (prev manifests : dict Manifest) :
  (∀ img, ((get_images_row img).1.2 = "deck"
           ∨ (get_images_row img).1.2 = "desktop") ∧
          contains (get_images_row img).1.2 "nvidia" = false ∧
          group_skips "nvidia" (get_images_row img).1.2 (get_images_row img).2
            = true) ∧
  (∀ imgs pkg common,
     get_package_groups_other o (get_images_row <$> imgs) pkg common "nvidia"
       = ∅) ∧
  dict_get (get_package_groups o prev manifests).2 "nvidia" = Some [] ∧
  (∀ prev_versions versions changes rest,
     generate_changelog_groups (("nvidia", []) :: rest) prev_versions versions
       changes
     = generate_changelog_groups rest prev_versions versions changes).
Proof.
  assert (∀ img, ((get_images_row img).1.2 = "deck"
           ∨ (get_images_row img).1.2 = "desktop") ∧
          contains (get_images_row img).1.2 "nvidia" = false ∧
          group_skips "nvidia" (get_images_row img).1.2 (get_images_row img).2
            = true) as Hrow.
  { intros img. unfold get_images_row. simpl.
    destruct (contains img "deck"), (contains img "gnome"); simpl; auto. }
  split; [done|]. split; [|split].
  - intros imgs pkg common. apply set_eq. intros x. rewrite elem_of_empty.
    split; [|done]. intros (_ & (i & s & Hi & Hs) & _)%elem_of_other.
    apply list_elem_of_fmap in Hi as (img & -> & _).
    unfold group_selects in Hs. destruct (pkg !! _); [|done].
    destruct (Hrow img) as (_ & _ & Hskip). by rewrite Hskip in Hs.
  - by rewrite get_package_groups_shape.
  - done.
Qed.

(** *** Independence of the order in which sets are visited *)

Section VisitingOrder.
Context (o1 o2 : SetOrder).

Lemma get_tags_order re_compile target manifests :
  get_tags re_compile o1 target manifests
  = get_tags re_compile o2 target manifests.
Proof.
  unfold get_tags. destruct (next_iter_values manifests) as [first|]; [|done].
  simpl. destruct (get_tags_collect _ _ _ _) as [tags|]; [|done]. simpl.
  assert (foldl (get_tags_prune o1) tags (dict_values manifests) =
          foldl (get_tags_prune o2) tags (dict_values manifests)) as ->.
  { apply set_eq. intros x. by rewrite !elem_of_foldl_get_tags_prune. }
  by rewrite (sorted_iter_order o1 o2).
Qed.

Lemma get_package_groups_pkg_order npkg ppkg :
  get_package_groups_pkg o1 npkg ppkg = get_package_groups_pkg o2 npkg ppkg.
Proof. apply map_eq. intros k. by rewrite !lookup_get_package_groups_pkg. Qed.

Lemma get_package_groups_common_order images pkg :
  get_package_groups_common o1 images pkg
  = get_package_groups_common o2 images pkg.
Proof. apply set_eq. intros x. by rewrite !elem_of_common. Qed.

Lemma get_package_groups_other_order images pkg common t :
  get_package_groups_other o1 images pkg common t
  = get_package_groups_other o2 images pkg common t.
Proof. apply set_eq. intros x. by rewrite !elem_of_other. Qed.

Lemma get_package_groups_order prev manifests :
  get_package_groups o1 prev manifests = get_package_groups o2 prev manifests.
Proof.
  unfold get_package_groups.
  rewrite get_package_groups_pkg_order, get_package_groups_common_order.
  rewrite (sorted_iter_order o1 o2). f_equal.
  rewrite <-!list_fmap_compose. apply list_fmap_ext. intros _ k _. simpl.
  by rewrite get_package_groups_other_order, (sorted_iter_order o1 o2).
Qed.

Lemma get_upstream_section_order re_compile inspect_image format_created
    target upstream_curr upstream_prev :
  get_upstream_section re_compile o1 inspect_image format_created target
    upstream_curr upstream_prev
  = get_upstream_section re_compile o2 inspect_image format_created target
      upstream_curr upstream_prev.
Proof.
  unfold get_upstream_section. f_equal.
  destruct (or_upstream inspect_image upstream_curr target); [done|].
  rewrite (get_tags_order re_compile).
  destruct (get_tags _ _ _ _) as [[prev_tag curr_tag]|]; [|done].
  by rewrite (sorted_iter_order o1 o2).
Qed.

End VisitingOrder.

(** C10.  The title and the document do not depend on the order in which
    the sets of the program are visited, the one thing the language leaves
    open between two runs: on the same handwritten text, target, pretty
    string, working directory and manifests, and with the same answers of
    the pattern engine, the registry, the commit log and the time
    formatting, two runs return the same title and document, or raise the
    same exception. *)
Theorem generate_changelog_deterministic (o1 o2 : SetOrder)
    (re_compile : string → option (string → bool))
    (inspect_image : string → option Manifest)
    (git_log : string → string → option string)
    (format_created : string → option string)
    (handwritten : option string) (target : string)
    (pretty workdir : option string) (prev_manifests manifests : dict Manifest)
    (upstream_curr upstream_prev : option (dict Manifest)) :
  generate_changelog re_compile o1 inspect_image git_log format_created
    handwritten target pretty workdir prev_manifests manifests
    upstream_curr upstream_prev
  = generate_changelog re_compile o2 inspect_image git_log format_created
      handwritten target pretty workdir prev_manifests manifests
      upstream_curr upstream_prev.
Proof.
  unfold generate_changelog.
  rewrite (get_package_groups_order o1 o2).
  rewrite (get_tags_order o1 o2).
  by rewrite (get_upstream_section_order o1 o2).
Qed.

(** *** Extraction and normalisation *)

Lemma dict_get_set {V} (d : dict V) k v k' :
  dict_get (dict_set d k v) k' = if decide (k' = k) then Some v else dict_get d k'.
Proof.
  induction d as [|[k0 v0] d IH]; simpl.
  - by repeat case_decide.
  - destruct (decide (k = k0)) as [->|Hne]; simpl.
    + by repeat case_decide.
    + rewrite IH. repeat case_decide; congruence.
Qed.

Lemma elem_of_dict_set {V} (d : dict V) k v k' v' :
  (k', v') ∈ dict_set d k v → (k', v') ∈ d ∨ (k' = k ∧ v' = v).
Proof.
  induction d as [|[k0 v0] d IH]; simpl.
  - intros [= -> ->]%list_elem_of_singleton. by right.
  - case_decide as Hk.
    + intros [[= -> ->]|?]%elem_of_cons; [by right|left; by right].
    + intros [[= -> ->]|[?|?]%IH]%elem_of_cons; [left; by left| |by right].
      left. by right.
Qed.

Lemma names_only_set (d : dict (dict string)) k pkgs :
  names_only (dict_set d k pkgs) = dict_set (names_only d) k (dict_keys pkgs).
Proof.
  induction d as [|[k0 v0] d IH]; [done|].
  change (names_only ((k0, v0) :: d))
    with ((k0, dict_keys v0) :: names_only d).
  cbn [dict_set]. case_decide; [done|].
  change (names_only ((k0, v0) :: dict_set d k pkgs))
    with ((k0, dict_keys v0) :: names_only (dict_set d k pkgs)).
  by rewrite IH.
Qed.

Lemma names_only_keys (d : dict (dict string)) :
  dict_keys (names_only d) = dict_keys d.
Proof.
  unfold names_only, dict_keys. rewrite <-list_fmap_compose.
  apply list_fmap_ext. by intros _ [? ?] _.
Qed.

Lemma names_only_get (d : dict (dict string)) k :
  dict_get (names_only d) k = dict_keys <$> dict_get d k.
Proof.
  unfold names_only. induction d as [|[k0 v0] d IH]; simpl; [done|].
  by case_decide.
Qed.

Lemma names_of_names_only (d : dict (dict string)) k :
  names_of d k = list_to_set (default [] (dict_get (names_only d) k)).
Proof. unfold names_of. rewrite names_only_get. by destruct (dict_get d k). Qed.

(** The names that [get_packages] extracts are a function of the names in
    the labels. *)
Lemma names_only_get_packages (ms : dict Manifest) :
  names_only (get_packages ms) =
  foldl (λ acc '(img, names),
           match names with
           | Some ns => dict_set acc img ns
           | None => acc
           end)
        [] ((λ '(img, m), (img, dict_keys <$> rechunk_packages m)) <$> ms).
Proof.
  unfold get_packages.
  change (@nil (string * list string)) with (names_only []).
  generalize (@nil (string * dict string)).
  induction ms as [|[img m] ms IH]; intros acc; [done|].
  rewrite fmap_cons. cbn [foldl]. rewrite IH.
  destruct (rechunk_packages m); cbn [fmap option_fmap option_map]; [|done].
  by rewrite names_only_set.
Qed.

Lemma same_names_get_packages (ms ms' : dict Manifest) :
  same_names ms ms' →
  names_only (get_packages ms) = names_only (get_packages ms').
Proof. unfold same_names. intros Heq. by rewrite !names_only_get_packages, Heq. Qed.

Lemma get_package_groups_names (o : SetOrder) prev prev' ms ms' :
  names_only (get_packages prev) = names_only (get_packages prev') →
  names_only (get_packages ms) = names_only (get_packages ms') →
  get_package_groups o prev ms = get_package_groups o prev' ms'.
Proof.
  intros Hp Hm. rewrite !get_package_groups_shape.
  assert (get_package_groups_pkg o (get_packages ms) (get_packages prev) =
          get_package_groups_pkg o (get_packages ms') (get_packages prev'))
    as ->; [|done].
  apply map_eq. intros k. rewrite !lookup_get_package_groups_pkg.
  rewrite !names_of_names_only, <-!names_only_keys. by rewrite Hp, Hm.
Qed.

(** Where an extracted package list comes from. *)
Lemma elem_of_get_packages (ms : dict Manifest) img pkgs :
  (img, pkgs) ∈ get_packages ms →
  ∃ m, (img, m) ∈ ms ∧ rechunk_packages m = Some pkgs.
Proof.
  unfold get_packages.
  assert (∀ acc, (img, pkgs) ∈ foldl (λ packages '(img, manifest),
             match rechunk_packages manifest with
             | Some pkgs => dict_set packages img pkgs
             | None => packages
             end) acc ms →
           (img, pkgs) ∈ acc ∨
           ∃ m, (img, m) ∈ ms ∧ rechunk_packages m = Some pkgs) as Hgen.
  { induction ms as [|[img0 m0] ms IH]; intros acc; simpl; [by left|].
    intros [Hacc|(m & ? & ?)]%IH.
    - destruct (rechunk_packages m0) as [pk|] eqn:Hpk; [|by left].
      apply elem_of_dict_set in Hacc as [?|[-> ->]]; [by left|].
      right. exists m0. split; [by left|done].
    - right. exists m. split; [by right|done]. }
  intros [?%elem_of_nil|?]%Hgen; done.
Qed.

(** Every version of the view is a label version with the Fedora tag
    deleted. *)
Lemma get_versions_normalised (ms : dict Manifest) pkg v :
  dict_get (get_versions ms) pkg = Some v →
  ∃ img m pkgs raw, (img, m) ∈ ms ∧ rechunk_packages m = Some pkgs ∧
                    (pkg, raw) ∈ pkgs ∧ v = sub_FEDORA_PATTERN raw.
Proof.
  unfold get_versions.
  assert (∀ (items : dict string) acc,
    dict_get (foldl (λ versions '(pkg, v),
                       dict_set versions pkg (sub_FEDORA_PATTERN v))
                    acc items) pkg = Some v →
    dict_get acc pkg = Some v ∨
    ∃ raw, (pkg, raw) ∈ items ∧ v = sub_FEDORA_PATTERN raw) as Hinner.
  { induction items as [|[p raw] items IH]; intros acc; simpl; [by left|].
    intros [Hacc|(raw' & ? & ?)]%IH.
    - rewrite dict_get_set in Hacc. case_decide as Hp; [|by left].
      injection Hacc as <-. subst p. right. exists raw. split; [by left|done].
    - right. exists raw'. split; [by right|done]. }
  assert (∀ (tables : list (dict string)) acc,
    dict_get (foldl (λ versions img_pkgs,
                       foldl (λ versions '(pkg, v),
                                dict_set versions pkg (sub_FEDORA_PATTERN v))
                             versions img_pkgs)
                    acc tables) pkg = Some v →
    dict_get acc pkg = Some v ∨
    ∃ pkgs raw, pkgs ∈ tables ∧ (pkg, raw) ∈ pkgs
                ∧ v = sub_FEDORA_PATTERN raw) as Houter.
  { induction tables as [|t tables IH]; intros acc; simpl; [by left|].
    intros [[Hacc|(raw & ? & ?)]%Hinner|(pkgs & raw & ? & ? & ?)]%IH.
    - by left.
    - right. exists t, raw. split; [by left|done].
    - right. exists pkgs, raw. split; [by right|done]. }
  intros [?|(pkgs & raw & Hin & ? & ?)]%Houter; [done|].
  apply list_elem_of_fmap in Hin as ([img pk] & -> & Hin).
  apply elem_of_get_packages in Hin as (m & ? & ?).
  by exists img, m, pk, raw.
Qed.

Lemma fmap_factor {A B C} (f : A → B) (g : B → C) (h : A → C) (l l' : list A) :
  (∀ x, g (f x) = h x) → f <$> l = f <$> l' → h <$> l = h <$> l'.
Proof.
  intros Hgh Heq.
  assert (∀ k : list A, h <$> k = g <$> (f <$> k)) as Hk.
  { intros k. rewrite <-list_fmap_compose. apply list_fmap_ext.
    intros _ x _. symmetry. apply Hgh. }
  by rewrite !Hk, Heq.
Qed.

(** What the rendering reads of a manifest collection besides the package
    lists: the tag lists and the revisions. *)
Lemma same_but_versions_inv (ms ms' : dict Manifest) :
  same_but_versions ms ms' →
  same_names ms ms' ∧
  RepoTags <$> dict_values ms = RepoTags <$> dict_values ms' ∧
  revision <$> dict_values ms = revision <$> dict_values ms'.
Proof.
  unfold same_but_versions, same_names, dict_values. intros Heq.
  split; [|split].
  - eapply (fmap_factor _ (λ x, (x.1.1.1, x.2))); [|exact Heq]. by intros [? ?].
  - rewrite <-!list_fmap_compose.
    eapply (fmap_factor _ (λ x, x.1.1.2)); [|exact Heq]. by intros [? ?].
  - rewrite <-!list_fmap_compose.
    eapply (fmap_factor _ (λ x, x.1.2)); [|exact Heq]. by intros [? ?].
Qed.

Lemma get_tags_tag_lists re_compile o target (ms ms' : dict Manifest) :
  RepoTags <$> dict_values ms = RepoTags <$> dict_values ms' →
  get_tags re_compile o target ms = get_tags re_compile o target ms'.
Proof.
  intros Heq. unfold get_tags, next_iter_values.
  destruct (dict_values ms) as [|first l] eqn:Hms,
           (dict_values ms') as [|first' l'] eqn:Hms'; try done.
  injection Heq as Hfirst Hl. simpl. rewrite Hfirst.
  destruct (get_tags_collect _ _ _ _) as [tags|]; [|done]. simpl.
  assert (get_tags_prune o tags first = get_tags_prune o tags first') as ->.
  { unfold get_tags_prune. by rewrite Hfirst. }
  assert (∀ tags0, foldl (get_tags_prune o) tags0 l =
                   foldl (get_tags_prune o) tags0 l') as ->; [|done].
  intros tags0. apply set_eq. intros x.
  rewrite !elem_of_foldl_get_tags_prune.
  assert (∀ ml : list Manifest,
            (∀ m, m ∈ ml → x ∈ RepoTags m) ↔
            (∀ rt, rt ∈ RepoTags <$> ml → x ∈ rt)) as Hvia.
  { intros ml. split.
    - intros Hall rt (m & -> & ?)%list_elem_of_fmap. auto.
    - intros Hall m Hm. apply Hall, list_elem_of_fmap. eauto. }
  assert (RepoTags <$> l = RepoTags <$> l') as Hl' by exact Hl.
  by rewrite !Hvia, Hl'.
Qed.

Lemma first_revision_lists (ms ms' : dict Manifest) :
  revision <$> dict_values ms = revision <$> dict_values ms' →
  (next_iter_values ms ≫= label_revision)
  = (next_iter_values ms' ≫= label_revision).
Proof.
  unfold next_iter_values.
  destruct (dict_values ms) as [|m l], (dict_values ms') as [|m' l'];
    try done.
  intros [= Hm _]. simpl. unfold label_revision. by rewrite Hm.
Qed.

(** The document reads the versions of the package labels through the
    normalised view only. *)
Lemma generate_changelog_versions_view re_compile o inspect_image git_log
    format_created handwritten target pretty workdir
    (prev prev' ms ms' : dict Manifest) upstream_curr upstream_prev :
  same_but_versions prev prev' → same_but_versions ms ms' →
  get_versions prev = get_versions prev' →
  get_versions ms = get_versions ms' →
  generate_changelog re_compile o inspect_image git_log format_created
    handwritten target pretty workdir prev ms upstream_curr upstream_prev
  = generate_changelog re_compile o inspect_image git_log format_created
      handwritten target pretty workdir prev' ms' upstream_curr upstream_prev.
Proof.
  intros (Hnp & _ & Hrp)%same_but_versions_inv
         (Hnm & Htm & Hrm)%same_but_versions_inv Hvp Hvm.
  unfold generate_changelog.
  rewrite (get_package_groups_names o prev prev' ms ms')
    by by apply same_names_get_packages.
  rewrite (get_tags_tag_lists re_compile o target ms ms' Htm), Hvp, Hvm.
  assert (∀ curr, generate_pretty target curr ms
                  = generate_pretty target curr ms') as Hpretty.
  { intros curr. unfold generate_pretty.
    change (m ← next_iter_values ms; label_revision m)
      with (next_iter_values ms ≫= label_revision).
    change (m ← next_iter_values ms'; label_revision m)
      with (next_iter_values ms' ≫= label_revision).
    by rewrite (first_revision_lists ms ms' Hrm). }
  assert (get_commits git_log prev ms workdir
          = get_commits git_log prev' ms' workdir) as ->.
  { unfold get_commits. destruct (truthy workdir); [|done]. simpl. f_equal.
    pose proof (first_revision_lists prev prev' Hrp) as Hp.
    pose proof (first_revision_lists ms ms' Hrm) as Hm.
    unfold next_iter_values in *.
    destruct (dict_values prev) as [|pm ?], (dict_values prev') as [|pm' ?];
      try done; simpl in Hp |- *.
    destruct (label_revision pm), (label_revision pm'); try done.
    injection Hp as <-. simpl.
    destruct (dict_values ms) as [|m ?], (dict_values ms') as [|m' ?];
      try done; simpl in Hm |- *.
    destruct (label_revision m), (label_revision m'); try done.
    by injection Hm as <-. }
  destruct (get_package_groups o prev' ms') as [common others].
  destruct (get_tags re_compile o target ms') as [[p c]|]; [|done]. simpl.
  by rewrite Hpretty.
Qed.

(** C6.  The versions view holds, for every package, a version of a package
    label with the Fedora tag deleted, and the document reads the label
    versions through that view only: collections that differ in version
    strings the normaliser identifies give the same title and document.
    The reconciliation reads the package names as they stand in the labels:
    a name is common exactly when the label names of every variant with a
    package list contain it, the result is the same for collections that
    list the same names whatever the versions, and a name is not
    normalised ("lib.fc41" and "lib" are different names). *)
Theorem reconciliation_on_raw_names (o : SetOrder) :
  (∀ manifests pkg v,
     dict_get (get_versions manifests) pkg = Some v →
     ∃ img m pkgs raw, (img, m) ∈ manifests ∧ rechunk_packages m = Some pkgs ∧
                       (pkg, raw) ∈ pkgs ∧ v = sub_FEDORA_PATTERN raw) ∧
  (∀ re_compile inspect_image git_log format_created handwritten target
     pretty workdir prev prev' ms ms' upstream_curr upstream_prev,
     same_but_versions prev prev' → same_but_versions ms ms' →
     get_versions prev = get_versions prev' →
     get_versions ms = get_versions ms' →
     generate_changelog re_compile o inspect_image git_log format_created
       handwritten target pretty workdir prev ms upstream_curr upstream_prev
     = generate_changelog re_compile o inspect_image git_log format_created
         handwritten target pretty workdir prev' ms' upstream_curr
         upstream_prev) ∧
  (∀ prev manifests x,
     x ∈ (get_package_groups o prev manifests).1 ↔
     (∃ img, img ∈ IMAGES ∧ has_packages prev manifests img) ∧
     ∀ img, img ∈ IMAGES → has_packages prev manifests img →
            x ∈ variant_universe prev manifests img) ∧
  (∀ prev prev' ms ms',
     same_names prev prev' → same_names ms ms' →
     get_package_groups o prev ms = get_package_groups o prev' ms') ∧
  (get_versions fc_prev = [("lib", "1.0-1")] ∧
   get_versions fc_curr = [("lib", "1.0-1")] ∧
   calculate_changes ["lib"] (get_versions fc_prev) (get_versions fc_curr)
     = Ok "") ∧
  (sub_FEDORA_PATTERN "lib.fc41" = "lib" ∧
   (get_package_groups o [] raw_names).1 = [] ∧
   (get_package_groups o [] raw_versions).1 = ["lib"]).
Proof.
  split; [apply get_versions_normalised|].
  split; [intros; by apply generate_changelog_versions_view|].
  split; [|split; [|split]].
  - intros prev manifests x.
    rewrite get_package_groups_shape. simpl.
    rewrite elem_of_sorted, elem_of_iter, elem_of_common. split.
    + intros [(i & s & Hi & Hs) Hall]. split.
      * apply lookup_pkg_table in Hs as [Hhas _].
        apply list_elem_of_fmap in Hi as (img & -> & ?). by exists img.
      * intros img Himg Hhas.
        apply (Hall (get_images_row img)).
        -- by apply list_elem_of_fmap_2.
        -- by apply lookup_pkg_table.
    + intros [(img & Himg & Hhas) Hall]. split.
      * exists (get_images_row img), (variant_universe prev manifests img).
        split; [by apply list_elem_of_fmap_2|]. by apply lookup_pkg_table.
      * intros i s Hi [Hhas' ->]%lookup_pkg_table.
        apply list_elem_of_fmap in Hi as (img' & -> & ?). by apply Hall.
  - intros prev prev' ms ms' Hp Hm.
    by apply get_package_groups_names; apply same_names_get_packages.
  - by vm_compute.
  - rewrite !(get_package_groups_order o elements_order). by vm_compute.
Qed.

(** *** The statements at concrete inputs *)

(** C1, as the specification words it, fails on the scenario of the stable
    channel: the pair returned is ("23.10", "23.9"), not ("23.9", "23.10"). *)
Lemma get_tags_scenario_not_numeric :
  get_tags no_re elements_order "stable" scenario_manifests
    = Ok ("23.10", "23.9") ∧
  get_tags no_re elements_order "stable" scenario_manifests
    ≠ Ok ("23.9", "23.10").
Proof. split; [by vm_compute|]. vm_compute. discriminate. Qed.

(** C2, as the specification words it, fails on two packages released in
    lockstep: "mesa-libEGL" is in the universe, absent from the previous map,
    no anchor, and no anchor has a current version at all; yet it is not
    added, because "mesa-libGL", listed before it, has the same current
    version.  So the rule "a name absent from the previous map is added",
    even with anchors and the names that share an anchor's current version
    set apart, does not hold for every universe and every pair of maps. *)
Lemma calculate_changes_lockstep_not_added :
  "mesa-libEGL" ∈ ["mesa-libGL"; "mesa-libEGL"] ∧
  dict_get lockstep_prev "mesa-libEGL" = None ∧
  ("mesa-libEGL" ∉ BLACKLIST_VERSIONS) ∧
  (∀ a, a ∈ BLACKLIST_VERSIONS → dict_get lockstep_curr a = None) ∧
  ¬ has_outcome (calculate_changes_classify ["mesa-libGL"; "mesa-libEGL"]
                   lockstep_prev lockstep_curr) "mesa-libEGL" Added ∧
  has_outcome (calculate_changes_classify ["mesa-libGL"; "mesa-libEGL"]
                 lockstep_prev lockstep_curr) "mesa-libEGL" NotReported ∧
  ¬ (∀ pkgs prev curr x,
       x ∈ pkgs → x ∉ BLACKLIST_VERSIONS →
       (∀ a, a ∈ BLACKLIST_VERSIONS → dict_get curr a ≠ dict_get curr x) →
       dict_get prev x = None →
       has_outcome (calculate_changes_classify pkgs prev curr) x Added).
Proof.
  assert ("mesa-libEGL" ∈ ["mesa-libGL"; "mesa-libEGL"]) as Hin
    by (right; left).
  assert ("mesa-libEGL" ∉ BLACKLIST_VERSIONS) as Hanchor.
  { unfold BLACKLIST_VERSIONS. intros H. list_cases H. }
  assert (∀ a, a ∈ BLACKLIST_VERSIONS → dict_get lockstep_curr a = None)
    as Hnone.
  { unfold BLACKLIST_VERSIONS. intros a H. list_cases H; reflexivity. }
  assert (¬ has_outcome (calculate_changes_classify
                           ["mesa-libGL"; "mesa-libEGL"]
                           lockstep_prev lockstep_curr) "mesa-libEGL" Added)
    as Hnot.
  { vm_compute. by intros ?%elem_of_nil. }
  split; [done|]. split; [reflexivity|]. split; [done|]. split; [done|].
  split; [done|]. split.
  - vm_compute. repeat split; intros H; list_cases H.
  - intros Hrule. apply Hnot.
    apply (Hrule ["mesa-libGL"; "mesa-libEGL"] lockstep_prev lockstep_curr);
      [done|done| |reflexivity].
    intros a Ha. by rewrite (Hnone a Ha).
Qed.

(** On the same input "mesa-libGL" shares no version and is changed. *)
Lemma calculate_changes_partition_witness :
  unshared ["mesa-libGL"; "mesa-libEGL"] lockstep_prev lockstep_curr
    "mesa-libGL" ∧
  has_outcome (calculate_changes_classify ["mesa-libGL"; "mesa-libEGL"]
                 lockstep_prev lockstep_curr) "mesa-libGL" Changed.
Proof.
  assert (unshared ["mesa-libGL"; "mesa-libEGL"] lockstep_prev lockstep_curr
            "mesa-libGL") as Hun.
  { split.
    - unfold BLACKLIST_VERSIONS. intros H. list_cases H.
    - exists [], ["mesa-libEGL"]. split; [reflexivity|].
      intros v Hv. split.
      + unfold BLACKLIST_VERSIONS. intros k H.
        list_cases H; discriminate.
      + by intros y ?%elem_of_nil. }
  split; [exact Hun|].
  apply (calculate_changes_partition ["mesa-libGL"; "mesa-libEGL"]
           lockstep_prev lockstep_curr); [exact Hun|..].
  - by eexists.
  - by eexists.
  - discriminate.
Defined.

Lemma get_tags_stable_scenario_witness :
  ¬ qualifies no_re "stable" scenario_manifests "23.10.0" ∧
  sorted ["23.9"; "23.10"] = ["23.10"; "23.9"] ∧
  get_tags no_re reverse_order "stable" scenario_manifests
    = Ok ("23.10", "23.9").
Proof.
  apply (get_tags_stable_scenario no_re reverse_order scenario_manifests).
  - discriminate.
  - intros m t Hm Ht. simpl in Hm. list_cases Hm; exact Ht.
  - intros t ((m & Hm & Ht) & _). simpl in Hm. list_cases Hm; exact Ht.
Defined.

Lemma get_tags_fatal_below_two_witness :
  (∃ e, get_tags no_re elements_order "stable" one_tag_manifests = Raise e) ∧
  (∃ prev curr,
     get_tags no_re elements_order "stable" two_tag_manifests
       = Ok (prev, curr)).
Proof.
  split.
  - apply (proj1 (get_tags_fatal_below_two no_re elements_order "stable"
                    one_tag_manifests)).
    intros (t1 & t2 & Hne & H1 & H2). apply Hne.
    destruct H1 as ((m1 & Hm1 & Ht1) & _ & He1 & f1 & [= <-] & Hf1).
    destruct H2 as ((m2 & Hm2 & Ht2) & _ & He2 & f2 & [= <-] & Hf2).
    simpl in Hm1, Hm2. list_cases Hm1. list_cases Hm2.
    simpl in Ht1, Ht2. list_cases Ht1; list_cases Ht2;
      first [reflexivity | discriminate].
  - apply (proj2 (get_tags_fatal_below_two no_re elements_order "stable"
                    two_tag_manifests)).
    exists "41.20250101", "41.20250108". split; [discriminate|].
    split; (split; [|split; [|split]]).
    all: try (eexists; split; [by left|]; simpl; set_solver).
    all: try (intros m Hm; simpl in Hm; list_cases Hm; simpl; set_solver).
    all: try reflexivity.
    all: exists match_STABLE_START_PATTERN; by split.
Defined.


Lemma calculate_changes_partial_witness :
  (∃ out, calculate_changes scenario_universe scenario_prev scenario_curr
            = Ok out) ∧
  (classified ["ghost"] [] [] "ghost" ∧
   "ghost" ∈ added (calculate_changes_classify ["ghost"] [] []) ∧
   ∃ k, dict_get ([] : dict string) k = None ∧
        calculate_changes ["ghost"] [] [] = Raise (KeyError k)).
Proof.
  split.
  - apply (proj1 (calculate_changes_partial scenario_universe scenario_prev
                    scenario_curr)).
    intros x [Hx _]%classified_elem_of. unfold scenario_universe in Hx.
    list_cases Hx; [left|left|right]; by eexists.
  - apply (proj2 (calculate_changes_partial ["ghost"] [] []) "ghost").
    + by left.
    + intros Hbl. unfold BLACKLIST_VERSIONS in Hbl. list_cases Hbl.
    + reflexivity.
    + reflexivity.
Defined.

Lemma reconciliation_on_raw_names_witness :
  generate_changelog no_re elements_order (λ _, None) (λ _ _, None)
    (λ _, None) None "stable" None None fc_prev fc_curr None None
  = generate_changelog no_re elements_order (λ _, None) (λ _ _, None)
      (λ _, None) None "stable" None None fc_prev fc_curr' None None ∧
  get_package_groups elements_order [] raw_versions
  = get_package_groups elements_order [] raw_versions'.
Proof.
  split.
  - apply (proj1 (proj2 (reconciliation_on_raw_names elements_order)));
      reflexivity.
  - apply (proj1 (proj2 (proj2 (proj2
             (reconciliation_on_raw_names elements_order)))));
      reflexivity.
Defined.

(** ** Further properties *)

(** *** Tag selection *)

Lemma get_tags_collect_Raise re_compile target l tags e :
  get_tags_collect re_compile target l tags = Raise e →
  e = ReError (OTHER_START_PATTERN target) ∧
  String.eqb target "stable" = false ∧
  re_compile (OTHER_START_PATTERN target) = None.
Proof.
  revert tags. induction l as [|tag l IH]; intros tags; simpl; [done|].
  destruct (endswith tag ".0"); [apply IH|].
  destruct (String.eqb target "stable"); simpl.
  - destruct (match_STABLE_START_PATTERN tag); apply IH.
  - destruct (re_compile (OTHER_START_PATTERN target)) as [matches|] eqn:Hre.
    + destruct (matches tag); apply IH.
    + by intros [= <-].
Qed.

Lemma get_tags_collect_stable re1 re2 l tags :
  get_tags_collect re1 "stable" l tags = get_tags_collect re2 "stable" l tags.
Proof.
  revert tags. induction l as [|tag l IH]; intros tags; simpl; [done|].
  destruct (endswith tag ".0"); [apply IH|].
  destruct (match_STABLE_START_PATTERN tag); apply IH.
Qed.

(** X1.  A pair returned by [get_tags] is made of two different qualifying
    tags, the previous one before the current one in string order, and every
    other qualifying tag comes before the previous one: the pair is the two
    greatest qualifying tags. *)
Theorem get_tags_returns_two_greatest
    (re_compile : string → option (string → bool)) (o : SetOrder)
    (target : string) (manifests : dict Manifest) (prev curr : string) :
  get_tags re_compile o target manifests = Ok (prev, curr) →
  qualifies re_compile target manifests prev ∧
  qualifies re_compile target manifests curr ∧
  prev ≠ curr ∧ String.le prev curr ∧
  ∀ t, qualifies re_compile target manifests t →
       t = curr ∨ t = prev ∨ (t ≠ prev ∧ String.le t prev).
Proof. apply get_tags_Ok. Qed.

Lemma get_tags_returns_two_greatest_witness :
  qualifies no_re "stable" two_tag_manifests "41.20250101" ∧
  qualifies no_re "stable" two_tag_manifests "41.20250108" ∧
  "41.20250101" ≠ "41.20250108" ∧
  String.le "41.20250101" "41.20250108" ∧
  ∀ t, qualifies no_re "stable" two_tag_manifests t →
       t = "41.20250108" ∨ t = "41.20250101"
       ∨ (t ≠ "41.20250101" ∧ String.le t "41.20250101").
Proof.
  apply (get_tags_returns_two_greatest no_re elements_order "stable"
           two_tag_manifests).
  vm_compute. reflexivity.
Defined.

(** X2.  The exceptions of [get_tags].  It raises [StopIteration] on an
    empty collection; on a named channel it raises the error of the pattern
    engine when the engine rejects the pattern; any other failure is the
    assertion on the number of tags, and then fewer than two tags qualify.
    On the stable channel the pattern engine is not consulted. *)
Theorem get_tags_exceptions
    (re_compile : string → option (string → bool)) (o : SetOrder)
    (target : string) (manifests : dict Manifest) :
  (manifests = [] →
   get_tags re_compile o target manifests = Raise StopIteration) ∧
  (∀ e, manifests ≠ [] →
        get_tags re_compile o target manifests = Raise e →
        (e = ReError (OTHER_START_PATTERN target) ∧ target ≠ "stable" ∧
         re_compile (OTHER_START_PATTERN target) = None) ∨
        (e = AssertionError "No current and previous tags found" ∧
         ¬ two_qualify re_compile target manifests)) ∧
  (∀ re_compile',
     get_tags re_compile o "stable" manifests
     = get_tags re_compile' o "stable" manifests).
Proof.
  split; [by intros ->|]. split.
  - intros e Hne Hraise.
    assert (e = AssertionError "No current and previous tags found" →
            ¬ two_qualify re_compile target manifests) as Hassert.
    { intros ->.
      destruct (get_tags_selected re_compile o target manifests)
        as [(e' & _ & Hnone)|(Q & HQ & Heq)].
      - intros (t1 & _ & _ & Ht1 & _). by apply Hnone in Ht1.
      - rewrite Heq in Hraise. simpl in Hraise.
        case_decide as Hlen.
        + destruct (last_two_inv _ Hlen) as (l & p & c & Hl).
          rewrite Hl in Hraise.
          destruct (getitem_neg_last_two l p c) as [Hp Hc].
          by rewrite Hp, Hc in Hraise.
        + intros (t1 & t2 & ? & ?%HQ & ?%HQ). apply Hlen.
          apply two_elements_length. eauto. }
    unfold get_tags, next_iter_values in Hraise.
    destruct manifests as [|[k first] rest]; [done|]. simpl in Hraise.
    destruct (get_tags_collect _ _ _ _) as [tags|e''] eqn:Hcol;
      simpl in Hraise.
    + right. case_decide as Hlen.
      * destruct (last_two_inv _ Hlen) as (l & p & c & Hl).
        rewrite Hl in Hraise.
        destruct (getitem_neg_last_two l p c) as [Hp Hc].
        by rewrite Hp, Hc in Hraise.
      * injection Hraise as <-. split; [done|]. by apply Hassert.
    + left. injection Hraise as <-.
      apply get_tags_collect_Raise in Hcol as (-> & Hst & Hre).
      split; [done|]. split; [|done]. by intros ->.
  - intros re_compile'. unfold get_tags.
    destruct (next_iter_values manifests) as [first|]; [|done]. simpl.
    by rewrite (get_tags_collect_stable re_compile re_compile').
Qed.

Lemma get_tags_exceptions_witness :
  (get_tags no_re elements_order "testing" one_tag_manifests
     = Raise (ReError (OTHER_START_PATTERN "testing")) →
   (ReError (OTHER_START_PATTERN "testing")
      = ReError (OTHER_START_PATTERN "testing") ∧
    "testing" ≠ "stable" ∧ no_re (OTHER_START_PATTERN "testing") = None) ∨
   (ReError (OTHER_START_PATTERN "testing")
      = AssertionError "No current and previous tags found" ∧
    ¬ two_qualify no_re "testing" one_tag_manifests)) ∧
  get_tags no_re elements_order "testing" one_tag_manifests
    = Raise (ReError (OTHER_START_PATTERN "testing")).
Proof.
  split; [|reflexivity].
  apply (proj1 (proj2 (get_tags_exceptions no_re elements_order "testing"
                         one_tag_manifests))).
  discriminate.
Defined.

(** *** Extraction and the versions view *)

Lemma dict_get_app {V} (d1 d2 : dict V) k :
  dict_get (d1 ++ d2) k =
  match dict_get d1 k with
  | Some v => Some v
  | None => dict_get d2 k
  end.
Proof.
  induction d1 as [|[k' v'] d1 IH]; simpl; [done|]. by case_decide.
Qed.

Lemma dict_get_None_keys {V} (d : dict V) k :
  dict_get d k = None ↔ k ∉ dict_keys d.
Proof.
  rewrite dict_keys_get_Some, eq_None_not_Some. done.
Qed.

Lemma dict_set_fresh {V} (d : dict V) k v :
  k ∉ dict_keys d → dict_set d k v = d ++ [(k, v)].
Proof.
  unfold dict_keys. induction d as [|[k' v'] d IH]; simpl; [done|].
  intros Hk. apply not_elem_of_cons in Hk as [Hne Hk].
  rewrite decide_False by done. by rewrite IH.
Qed.

Lemma dict_keys_set {V} (d : dict V) k v :
  dict_keys (dict_set d k v) =
  if decide (k ∈ dict_keys d) then dict_keys d else dict_keys d ++ [k].
Proof.
  unfold dict_keys. induction d as [|[k' v'] d IH].
  - by rewrite decide_False by apply not_elem_of_nil.
  - cbn [dict_set]. rewrite fmap_cons. cbn [fst].
    destruct (decide (k = k')) as [->|Hne].
    + by rewrite decide_True by (by left).
    + rewrite fmap_cons. cbn [fst]. rewrite IH.
      destruct (decide (k ∈ d.*1)) as [Hin|Hin].
      * by rewrite decide_True by (by right).
      * rewrite decide_False; [done|]. by intros [?|?]%elem_of_cons.
Qed.

Lemma dict_set_NoDup {V} (d : dict V) k v :
  NoDup (dict_keys d) → NoDup (dict_keys (dict_set d k v)).
Proof.
  intros Hnd. rewrite dict_keys_set. case_decide as Hk; [done|].
  apply NoDup_app. split; [done|]. split; [|apply NoDup_singleton].
  by intros x Hx ->%list_elem_of_singleton.
Qed.

(** X3.  For a collection with one entry per image, [get_packages] gives an
    image the package list of its label when the label decodes and leaves
    the image out when it does not, and it keeps the images in the order of
    the collection. *)
Theorem get_packages_lookup (manifests : dict Manifest) :
  NoDup (dict_keys manifests) →
  (∀ img, dict_get (get_packages manifests) img
          = dict_get manifests img ≫= rechunk_packages) ∧
  dict_keys (get_packages manifests)
  = dict_keys (filter (λ '(_, m), is_Some (rechunk_packages m)) manifests).
Proof.
  unfold get_packages.
  set (f := λ (packages : dict (dict string)) '(img, manifest),
              match rechunk_packages manifest with
              | Some pkgs => dict_set packages img pkgs
              | None => packages
              end).
  assert (∀ ms acc, NoDup (dict_keys acc ++ dict_keys ms) →
    (∀ img, dict_get (foldl f acc ms) img =
            match dict_get ms img ≫= rechunk_packages with
            | Some p => Some p
            | None => dict_get acc img
            end) ∧
    dict_keys (foldl f acc ms) =
      dict_keys acc
      ++ dict_keys (filter (λ '(_, m), is_Some (rechunk_packages m)) ms))
    as Hgen.
  { induction ms as [|[k m] ms IH]; intros acc Hnd.
    { simpl. split; [done|]. by rewrite app_nil_r. }
    assert ((k ∉ dict_keys acc) ∧ (k ∉ dict_keys ms) ∧
            NoDup (dict_keys acc ++ dict_keys ms)) as (Hka & Hkm & Hnd').
    { unfold dict_keys in *. simpl in Hnd.
      apply NoDup_app in Hnd as (Ha & Hdisj & Hm).
      apply NoDup_cons in Hm as [Hk Hm]. split; [|split; [done|]].
      - intros Hin. apply (Hdisj k Hin). by left.
      - apply NoDup_app. split; [done|]. split; [|done].
        intros x Hx Hx'. apply (Hdisj x Hx). by right. }
    assert (NoDup (dict_keys (f acc (k, m)) ++ dict_keys ms)) as Hnd''.
    { simpl. destruct (rechunk_packages m); [|done].
      rewrite dict_set_fresh by done. unfold dict_keys in *.
      rewrite fmap_app. simpl. rewrite <-(assoc_L (++)). simpl.
      apply NoDup_app. apply NoDup_app in Hnd' as (Ha & Hdisj & Hm).
      split; [done|]. split.
      - intros x Hx [->|Hx']%elem_of_cons; [done|]. by apply (Hdisj x).
      - by apply NoDup_cons. }
    destruct (IH (f acc (k, m)) Hnd'') as [IHget IHkeys].
    cbn [foldl]. split.
    - intros img. rewrite IHget. simpl.
      destruct (decide (img = k)) as [->|Hne].
      + apply dict_get_None_keys in Hkm. rewrite Hkm. simpl.
        destruct (rechunk_packages m); simpl.
        * rewrite dict_get_set. by rewrite decide_True.
        * done.
      + destruct (dict_get ms img ≫= rechunk_packages); [done|].
        destruct (rechunk_packages m); simpl; [|done].
        rewrite dict_get_set. by rewrite decide_False.
    - rewrite IHkeys. simpl. rewrite filter_cons. simpl.
      destruct (rechunk_packages m) as [p|] eqn:Hp.
      + rewrite decide_True by eauto.
        rewrite dict_set_fresh by done. unfold dict_keys.
        rewrite fmap_app, fmap_cons. simpl. by rewrite <-(assoc_L (++)).
      + rewrite decide_False; [done|]. by intros [? ?]. }
  intros Hnd. destruct (Hgen manifests []) as [Hget Hkeys]; [done|].
  split; [|done]. intros img. rewrite Hget.
  by destruct (dict_get manifests img ≫= rechunk_packages).
Qed.

Lemma get_packages_lookup_witness :
  (∀ img, dict_get (get_packages half_decoded) img
          = dict_get half_decoded img ≫= rechunk_packages) ∧
  dict_keys (get_packages half_decoded)
  = dict_keys (filter (λ '(_, m), is_Some (rechunk_packages m)) half_decoded).
Proof.
  apply (get_packages_lookup half_decoded).
  repeat constructor; set_solver.
Defined.

Lemma foldl_versions_get (items : dict string) (acc : dict string) pkg :
  dict_get (foldl (λ versions '(pkg, v),
                     dict_set versions pkg (sub_FEDORA_PATTERN v))
                  acc items) pkg =
  match dict_get (reverse items) pkg with
  | Some raw => Some (sub_FEDORA_PATTERN raw)
  | None => dict_get acc pkg
  end.
Proof.
  revert acc. induction items as [|[p raw] items IH]; intros acc; [done|].
  cbn [foldl]. rewrite IH, reverse_cons, dict_get_app.
  destruct (dict_get (reverse items) pkg); [done|].
  rewrite dict_get_set. simpl. by case_decide.
Qed.

Lemma foldl_versions_NoDup (items : dict string) (acc : dict string) :
  NoDup (dict_keys acc) →
  NoDup (dict_keys (foldl (λ versions '(pkg, v),
                             dict_set versions pkg (sub_FEDORA_PATTERN v))
                          acc items)).
Proof.
  revert acc. induction items as [|[p raw] items IH]; intros acc Hnd; [done|].
  cbn [foldl]. by apply IH, dict_set_NoDup.
Qed.

Lemma get_versions_concat (manifests : dict Manifest) :
  get_versions manifests =
  foldl (λ versions '(pkg, v), dict_set versions pkg (sub_FEDORA_PATTERN v))
        [] (label_entries manifests).
Proof.
  unfold get_versions, label_entries.
  generalize (dict_values (get_packages manifests)).
  generalize (@nil (string * string)).
  intros acc tables. revert acc.
  induction tables as [|t tables IH]; intros acc; [done|].
  cbn [foldl concat]. by rewrite foldl_app, IH.
Qed.

Lemma get_versions_get (manifests : dict Manifest) pkg :
  dict_get (get_versions manifests) pkg
  = sub_FEDORA_PATTERN <$> dict_get (reverse (label_entries manifests)) pkg.
Proof.
  rewrite get_versions_concat, foldl_versions_get.
  by destruct (dict_get (reverse _) pkg).
Qed.

Lemma get_versions_keys (manifests : dict Manifest) pkg :
  pkg ∈ dict_keys (get_versions manifests)
  ↔ pkg ∈ dict_keys (label_entries manifests).
Proof.
  rewrite !dict_keys_get_Some, get_versions_get, fmap_is_Some.
  rewrite <-!dict_keys_get_Some. unfold dict_keys.
  by rewrite fmap_reverse, elem_of_reverse.
Qed.

(** X4.  The versions view has one entry per package name; the version of
    a package is the normalised version of its last entry among the decoded
    package lists, so a later image overrides an earlier one, and a package
    has a version exactly when some decoded list names it. *)
Theorem get_versions_last_entry (manifests : dict Manifest) :
  NoDup (dict_keys (get_versions manifests)) ∧
  (∀ pkg, dict_get (get_versions manifests) pkg
          = sub_FEDORA_PATTERN
              <$> dict_get (reverse (label_entries manifests)) pkg) ∧
  (∀ pkg, pkg ∈ dict_keys (get_versions manifests)
          ↔ pkg ∈ dict_keys (label_entries manifests)).
Proof.
  split; [|split; [apply get_versions_get|apply get_versions_keys]].
  rewrite get_versions_concat. apply foldl_versions_NoDup. constructor.
Qed.

(** *** The version normaliser *)

Lemma sub_FEDORA_PATTERN_other (a : ascii) (r : string) :
  Ascii.eqb a "." = false →
  sub_FEDORA_PATTERN (String a r) = String a (sub_FEDORA_PATTERN r).
Proof.
  destruct a as [[] [] [] [] [] [] [] []]; intros Ha;
    first [discriminate Ha | reflexivity | by destruct r].
Qed.

Lemma sub_FEDORA_PATTERN_tag (d1 d2 : ascii) (r : string) :
  is_digit d1 = true → is_digit d2 = true →
  sub_FEDORA_PATTERN (String "." (String "f" (String "c"
                        (String d1 (String d2 r)))))
  = sub_FEDORA_PATTERN r.
Proof. intros H1 H2. simpl. by rewrite H1, H2. Qed.

Lemma sub_FEDORA_PATTERN_no_tag (a : ascii) (r : string) :
  fedora_at (String a r) = false →
  sub_FEDORA_PATTERN (String a r) = String a (sub_FEDORA_PATTERN r).
Proof.
  intros Hat. destruct (Ascii.eqb a ".") eqn:Ha;
    [|by apply sub_FEDORA_PATTERN_other].
  apply Ascii.eqb_eq in Ha as ->.
  destruct r as [|b r]; [done|].
  destruct (Ascii.eqb b "f") eqn:Hb.
  2:{ clear Hat.
      destruct b as [[] [] [] [] [] [] [] []];
        first [discriminate Hb | reflexivity]. }
  apply Ascii.eqb_eq in Hb as ->.
  destruct r as [|c r]; [done|].
  destruct (Ascii.eqb c "c") eqn:Hc.
  2:{ clear Hat.
      destruct c as [[] [] [] [] [] [] [] []];
        first [discriminate Hc | reflexivity]. }
  apply Ascii.eqb_eq in Hc as ->.
  destruct r as [|d1 [|d2 r]]; [done..|].
  simpl in Hat |- *. by rewrite Hat.
Qed.

Lemma fedora_at_true (v : string) :
  fedora_at v = true →
  ∃ d1 d2 r, v = String "." (String "f" (String "c" (String d1 (String d2 r))))
             ∧ is_digit d1 = true ∧ is_digit d2 = true.
Proof.
  destruct v as [|a [|b [|c [|d1 [|d2 r]]]]]; try done. simpl.
  intros ((((Ha%Ascii.eqb_eq & Hb%Ascii.eqb_eq)%andb_prop
             & Hc%Ascii.eqb_eq)%andb_prop & H1)%andb_prop & H2)%andb_prop.
  subst. by exists d1, d2, r.
Qed.

Lemma sub_FEDORA_PATTERN_length (v : string) :
  String.length (sub_FEDORA_PATTERN v) ≤ String.length v.
Proof.
  remember (String.length v) as n eqn:Hn.
  assert (String.length v ≤ n) as Hle by lia. clear Hn.
  revert v Hle. induction n as [|n IH]; intros v Hle.
  { destruct v; simpl in *; [done|lia]. }
  destruct v as [|a r]; [simpl; lia|].
  destruct (fedora_at (String a r)) eqn:Hat.
  - apply fedora_at_true in Hat as (d1 & d2 & r' & Heq & H1 & H2).
    rewrite Heq, sub_FEDORA_PATTERN_tag by done.
    rewrite Heq in Hle. simpl in Hle.
    assert (String.length (sub_FEDORA_PATTERN r') ≤ n)
      by (apply IH; lia).
    lia.
  - rewrite sub_FEDORA_PATTERN_no_tag by done. simpl in *.
    assert (String.length (sub_FEDORA_PATTERN r) ≤ n)
      by (apply IH; lia).
    lia.
Qed.

Lemma fedora_at_app (x : string) (d1 d2 : ascii) (y : string) :
  x ≠ "" → fedora_at x = false →
  fedora_at (x +:+ String "." (String "f" (String "c"
                     (String d1 (String d2 y))))) = false.
Proof.
  intros Hx Hat.
  destruct x as [|a [|b [|c [|e1 [|e2 r]]]]]; [done|..];
    lazy beta iota fix delta [String.append];
    cbn in Hat |- *; [..|done];
    repeat match goal with
           | |- context [Ascii.eqb ?u ?w] => destruct (Ascii.eqb u w)
           | |- context [is_digit ?u] => is_var u; destruct (is_digit u)
           end; reflexivity.
Qed.

(** X5.  The normaliser never lengthens a version, and it deletes a Fedora
    tag where it stands: when the text before the tag holds no tag of its
    own, that text is kept as it is and the normalisation goes on after the
    tag. *)
Theorem sub_FEDORA_PATTERN_deletes_tag :
  (∀ v, String.length (sub_FEDORA_PATTERN v) ≤ String.length v) ∧
  (∀ x d1 d2 y,
     is_digit d1 = true → is_digit d2 = true →
     sub_FEDORA_PATTERN x = x →
     sub_FEDORA_PATTERN
       (x +:+ String "." (String "f" (String "c" (String d1 (String d2 y)))))
     = x +:+ sub_FEDORA_PATTERN y).
Proof.
  split; [apply sub_FEDORA_PATTERN_length|].
  intros x d1 d2 y H1 H2.
  induction x as [|a x IH]; intros Hfix.
  { change ("" +:+ ?s) with s. by apply sub_FEDORA_PATTERN_tag. }
  destruct (fedora_at (String a x)) eqn:Hat.
  - exfalso. apply fedora_at_true in Hat as (e1 & e2 & r & Heq & He1 & He2).
    rewrite Heq, sub_FEDORA_PATTERN_tag in Hfix by done.
    pose proof (sub_FEDORA_PATTERN_length r) as Hlen.
    rewrite Hfix in Hlen. simpl in Hlen. lia.
  - rewrite sub_FEDORA_PATTERN_no_tag in Hfix by done.
    injection Hfix as Hfix.
    pose proof (fedora_at_app (String a x) d1 d2 y) as Happ.
    change (String a x +:+ ?s) with (String a (x +:+ s)) in Happ |- *.
    rewrite sub_FEDORA_PATTERN_no_tag by (by apply Happ).
    by rewrite IH.
Qed.

Lemma sub_FEDORA_PATTERN_deletes_tag_witness :
  sub_FEDORA_PATTERN ("6.12.8-201" +:+ ".fc41" +:+ ".x86_64")
  = "6.12.8-201" +:+ sub_FEDORA_PATTERN ".x86_64".
Proof.
  apply (proj2 sub_FEDORA_PATTERN_deletes_tag "6.12.8-201" "4"%char "1"%char
           ".x86_64");
    reflexivity.
Defined.

(** *** The diff engine: suppression *)

Section Suppression.
Context (prev curr : dict string).

Abbreviation bl_after l :=
  (blacklist_ver (calculate_changes_classify l prev curr)).

(** A classified package leaves its versions in the suppressed set. *)
Lemma classified_suppresses l1 x k v :
  calculate_changes_skip prev curr (bl_after l1) x = false →
  has_version prev curr x v →
  Some v ∈ bl_after (l1 ++ x :: k).
Proof.
  intros Hs Hv.
  replace (l1 ++ x :: k) with ((l1 ++ [x]) ++ k)
    by (by rewrite <-(assoc_L (++))).
  apply (classify_blacklist_mono prev curr (l1 ++ [x]) k).
  rewrite classify_snoc, step_blacklist_ver, Hs.
  destruct Hv as [<-|<-]; set_solver.
Qed.

Lemma suppressed_skips bl y v :
  Some v ∈ bl → has_version prev curr y v →
  calculate_changes_skip prev curr bl y = true.
Proof.
  intros Hin Hv. destruct (calculate_changes_skip prev curr bl y) eqn:Hs;
    [done|].
  apply skip_false in Hs as (_ & Hc & Hp). destruct Hv as [Hv|Hv].
  - by apply Hp in Hv.
  - by apply Hc in Hv.
Qed.

(** The versions of a reported package are suppressed from then on. *)
Lemma reported_suppressed l x v :
  classified l prev curr x → has_version prev curr x v → Some v ∈ bl_after l.
Proof.
  intros (l1 & l2 & -> & Hs) Hv. by apply classified_suppresses.
Qed.

Lemma classify_NoDup l :
  NoDup (changed (calculate_changes_classify l prev curr)) ∧
  NoDup (removed (calculate_changes_classify l prev curr)) ∧
  ((∀ x, x ∈ added (calculate_changes_classify l prev curr) →
         is_Some (dict_get curr x)) →
   NoDup (added (calculate_changes_classify l prev curr))).
Proof.
  induction l as [|x l (IHc & IHr & IHa)] using rev_ind.
  { repeat split; intros; constructor. }
  rewrite classify_snoc, step_changed, step_removed, step_added.
  destruct (calculate_changes_skip prev curr _ x) eqn:Hs; [done|].
  assert (∀ v, has_version prev curr x v →
               ¬ classified l prev curr x) as Hfresh.
  { intros v Hv Hcl.
    pose proof (reported_suppressed l x v Hcl Hv) as Hin.
    pose proof (suppressed_skips _ x v Hin Hv). congruence. }
  destruct (dict_get prev x) as [p|] eqn:Hp,
           (dict_get curr x) as [c|] eqn:Hc.
  - split; [|done]. case_decide; [done|].
    apply NoDup_app. split; [done|]. split; [|apply NoDup_singleton].
    intros y Hy ->%list_elem_of_singleton.
    apply elem_of_changed in Hy as (Hcl & _).
    apply (Hfresh p); [by left|done].
  - split; [done|]. split; [|done].
    apply NoDup_app. split; [done|]. split; [|apply NoDup_singleton].
    intros y Hy ->%list_elem_of_singleton.
    apply elem_of_removed in Hy as (Hcl & _).
    apply (Hfresh p); [by left|done].
  - split; [done|]. split; [done|]. intros Hall.
    apply NoDup_app. split; [|split; [|apply NoDup_singleton]].
    + apply IHa. intros y Hy. apply Hall. set_solver.
    + intros y Hy ->%list_elem_of_singleton.
      apply elem_of_added in Hy as (Hcl & _).
      apply (Hfresh c); [by right|done].
  - split; [done|]. split; [done|]. intros Hall.
    destruct (Hall x) as [? ?]; [set_solver|congruence].
Qed.

End Suppression.

(** What a returned text says about the added packages. *)
Lemma calculate_changes_Ok_inv pkgs prev curr out :
  calculate_changes pkgs prev curr = Ok out →
  (∀ x, x ∈ added (calculate_changes_classify pkgs prev curr) →
        is_Some (dict_get curr x)) ∧
  out = rows (row_add curr) (added (calculate_changes_classify pkgs prev curr))
        +:+ rows (row_change prev curr)
              (changed (calculate_changes_classify pkgs prev curr))
        +:+ rows (row_remove prev)
              (removed (calculate_changes_classify pkgs prev curr)).
Proof.
  intros Hout.
  assert (∀ x, x ∈ added (calculate_changes_classify pkgs prev curr) →
               is_Some (dict_get curr x)) as Hall.
  { intros x Hx. destruct (dict_get curr x) eqn:Hc; [eauto|].
    destruct (append_rows_add_raise curr _ "" x Hx Hc) as (k & _ & _ & Heq).
    unfold calculate_changes in Hout. by rewrite Heq in Hout. }
  split; [done|].
  rewrite (calculate_changes_Ok pkgs prev curr Hall) in Hout.
  by injection Hout as <-.
Qed.

(** X6.  When the two maps are the same map and every name of the universe
    is an anchor or a key of it, the diff is the empty text: nothing is
    reported. *)
Theorem calculate_changes_same_maps (pkgs : list string) (d : dict string) :
  (∀ x, x ∈ pkgs → x ∈ BLACKLIST_VERSIONS ∨ is_Some (dict_get d x)) →
  calculate_changes pkgs d d = Ok "".
Proof.
  intros Hall.
  set (st := calculate_changes_classify pkgs d d).
  assert (∀ x, classified pkgs d d x → is_Some (dict_get d x)) as Hcl.
  { intros x [Hx Hbl]%classified_elem_of. by destruct (Hall x Hx). }
  assert (added st = []) as Ha.
  { apply elem_of_nil_inv. intros x [Hx Hnone]%elem_of_added.
    apply Hcl in Hx as [? ?]. congruence. }
  assert (changed st = []) as Hc.
  { apply elem_of_nil_inv. by intros x (_ & _ & _ & Hne)%elem_of_changed. }
  assert (removed st = []) as Hr.
  { apply elem_of_nil_inv.
    intros x (_ & [? ?] & Hnone)%elem_of_removed. congruence. }
  rewrite calculate_changes_Ok; fold st.
  - by rewrite Ha, Hc, Hr.
  - rewrite Ha. by intros x ?%elem_of_nil.
Qed.

Lemma calculate_changes_same_maps_witness :
  calculate_changes scenario_universe scenario_curr scenario_curr = Ok "".
Proof.
  apply (calculate_changes_same_maps scenario_universe scenario_curr).
  intros x Hx. unfold scenario_universe in Hx.
  list_cases Hx; [right|left|right]; first [by eexists | set_solver].
Defined.

(** X7.  One package per version: two different packages that share a
    version string, previous or current, are never both classified, so at
    most one of them has a row. *)
Theorem calculate_changes_one_per_version (pkgs : list string)
    (prev curr : dict string) (x y v : string) :
  x ≠ y → has_version prev curr x v → has_version prev curr y v →
  ¬ (classified pkgs prev curr x ∧ classified pkgs prev curr y) ∧
  ∀ oc, oc ≠ NotReported →
        has_outcome (calculate_changes_classify pkgs prev curr) x oc →
        has_outcome (calculate_changes_classify pkgs prev curr) y NotReported.
Proof.
  intros Hne Hx Hy.
  assert (¬ (classified pkgs prev curr x ∧ classified pkgs prev curr y))
    as Hnot.
  { intros [(l1 & l2 & -> & Hs1) (l1' & l2' & Heq & Hs2)].
    apply app_eq_inv in Heq as [(k & -> & Hk)|(k & -> & Hk)].
    - destruct k as [|z k]; simpl in Hk; [congruence|].
      injection Hk as <- ->.
      pose proof (classified_suppresses prev curr l1' y k v Hs2 Hy) as Hin.
      pose proof (suppressed_skips prev curr _ x v Hin Hx). congruence.
    - destruct k as [|z k]; simpl in Hk; [congruence|].
      injection Hk as <- ->.
      pose proof (classified_suppresses prev curr l1 x k v Hs1 Hx) as Hin.
      pose proof (suppressed_skips prev curr _ y v Hin Hy). congruence. }
  split; [done|]. intros oc Hoc Hxoc.
  assert (classified pkgs prev curr x) as Hclx.
  { destruct oc; simpl in Hxoc; [..|done].
    - by apply elem_of_added in Hxoc as [? _].
    - by apply elem_of_changed in Hxoc as [? _].
    - by apply elem_of_removed in Hxoc as [? _]. }
  simpl. rewrite elem_of_added, elem_of_changed, elem_of_removed.
  repeat split; intros [Hcly _]; apply Hnot; auto.
Qed.

Lemma calculate_changes_one_per_version_witness :
  ¬ (classified ["mesa-libGL"; "mesa-libEGL"] lockstep_prev lockstep_curr
       "mesa-libGL" ∧
     classified ["mesa-libGL"; "mesa-libEGL"] lockstep_prev lockstep_curr
       "mesa-libEGL") ∧
  ∀ oc, oc ≠ NotReported →
        has_outcome (calculate_changes_classify ["mesa-libGL"; "mesa-libEGL"]
                       lockstep_prev lockstep_curr) "mesa-libGL" oc →
        has_outcome (calculate_changes_classify ["mesa-libGL"; "mesa-libEGL"]
                       lockstep_prev lockstep_curr) "mesa-libEGL" NotReported.
Proof.
  apply (calculate_changes_one_per_version ["mesa-libGL"; "mesa-libEGL"]
           lockstep_prev lockstep_curr "mesa-libGL" "mesa-libEGL" "24.2").
  - discriminate.
  - right. reflexivity.
  - right. reflexivity.
Defined.

(** X8.  A returned text has at most one row per package, also when the
    universe names a package more than once: the three sequences taken
    together hold no name twice. *)
Theorem calculate_changes_no_repeated_row (pkgs : list string)
    (prev curr : dict string) (out : string) :
  calculate_changes pkgs prev curr = Ok out →
  NoDup (added (calculate_changes_classify pkgs prev curr)
         ++ changed (calculate_changes_classify pkgs prev curr)
         ++ removed (calculate_changes_classify pkgs prev curr)).
Proof.
  intros [Hall _]%calculate_changes_Ok_inv.
  destruct (classify_NoDup prev curr pkgs) as (Hc & Hr & Ha).
  apply NoDup_app. split; [by apply Ha|]. split.
  - intros x [_ Hnone]%elem_of_added
             [(_ & [? ?] & _)%elem_of_changed
             |(_ & [? ?] & _)%elem_of_removed]%elem_of_app; congruence.
  - apply NoDup_app. split; [done|]. split; [|done].
    intros x (_ & _ & [? ?] & _)%elem_of_changed (_ & _ & ?)%elem_of_removed.
    congruence.
Qed.

Lemma calculate_changes_no_repeated_row_witness :
  NoDup (added (calculate_changes_classify ["bar"; "foo"; "bar"; "foo"]
                  scenario_prev scenario_curr)
         ++ changed (calculate_changes_classify ["bar"; "foo"; "bar"; "foo"]
                       scenario_prev scenario_curr)
         ++ removed (calculate_changes_classify ["bar"; "foo"; "bar"; "foo"]
                       scenario_prev scenario_curr)).
Proof.
  apply (calculate_changes_no_repeated_row ["bar"; "foo"; "bar"; "foo"]
           scenario_prev scenario_curr
           (PATTERN_ADD "bar" "2.0" +:+ PATTERN_CHANGE "foo" "1.0" "1.1")).
  vm_compute. reflexivity.
Defined.

(** *** The diff engine: the text *)

Lemma append_eq_nil (s1 s2 : string) : s1 +:+ s2 = "" ↔ s1 = "" ∧ s2 = "".
Proof.
  split; [|by intros [-> ->]]. by destruct s1.
Qed.

Lemma rows_eq_nil (row : string → string) (l : list string) :
  (∀ x, row x ≠ "") → rows row l = "" ↔ l = [].
Proof.
  intros Hrow. destruct l as [|x l]; [done|]. split; [|done].
  intros [? _]%append_eq_nil. by destruct (Hrow x).
Qed.

(** X9.  The text returned by [calculate_changes] is empty exactly when no
    package is reported; callers drop a section on the empty text, so a
    section is rendered exactly when it has a row. *)
Theorem calculate_changes_empty_text (pkgs : list string)
    (prev curr : dict string) (out : string) :
  calculate_changes pkgs prev curr = Ok out →
  (out = "" ↔
   added (calculate_changes_classify pkgs prev curr) = [] ∧
   changed (calculate_changes_classify pkgs prev curr) = [] ∧
   removed (calculate_changes_classify pkgs prev curr) = []).
Proof.
  intros [_ ->]%calculate_changes_Ok_inv.
  rewrite !append_eq_nil, !rows_eq_nil; [done|..]; by intros x.
Qed.

Lemma calculate_changes_empty_text_witness :
  PATTERN_ADD "bar" "2.0" +:+ PATTERN_CHANGE "foo" "1.0" "1.1" = "" ↔
  added (calculate_changes_classify scenario_universe scenario_prev
           scenario_curr) = [] ∧
  changed (calculate_changes_classify scenario_universe scenario_prev
             scenario_curr) = [] ∧
  removed (calculate_changes_classify scenario_universe scenario_prev
             scenario_curr) = [].
Proof.
  apply (calculate_changes_empty_text scenario_universe scenario_prev
           scenario_curr).
  vm_compute. reflexivity.
Defined.

(** *** Group reconciliation for any list of images *)

(** X10.  For any list of classified images and any table of universes:
    the common set is the set of names that every image of the table has,
    empty when no image is in the table; the set of a group is the set of
    names outside the common set that every image of the group has, empty
    when the group has no image in the table. *)
Theorem group_sets_are_intersections (o : SetOrder)
    (images : list (string * string * string))
    (pkg : gmap string (gset string)) (t x : string) :
  let common := get_package_groups_common o images pkg in
  (x ∈ common ↔
   (∃ i s, i ∈ images ∧ pkg !! i.1.1 = Some s) ∧
   ∀ i s, i ∈ images → pkg !! i.1.1 = Some s → x ∈ s) ∧
  (x ∈ get_package_groups_other o images pkg common t ↔
   (x ∉ common) ∧
   (∃ i s, i ∈ images ∧ group_selects pkg t i = Some s) ∧
   ∀ i s, i ∈ images → group_selects pkg t i = Some s → x ∈ s).
Proof. split; [apply elem_of_common|apply elem_of_other]. Qed.

(** X11.  With the images of this repository every group sequence is
    empty, whatever the manifests, and the loop over the groups adds no
    section to the document. *)
Theorem get_package_groups_no_group_section (o : SetOrder)
    (prev manifests : dict Manifest) (prev_versions versions : dict string)
    (changes : string) :
  (get_package_groups o prev manifests).2
    = [("desktop", []); ("deck", []); ("kde", []); ("nvidia", [])] ∧
  generate_changelog_groups (get_package_groups o prev manifests).2
    prev_versions versions changes = Ok changes.
Proof. by rewrite get_package_groups_shape. Qed.

(** *** Rendering *)

Lemma dict_get_elem_of {V} (d : dict V) k v :
  dict_get d k = Some v → (k, v) ∈ d.
Proof.
  induction d as [|[k' v'] d IH]; simpl; [done|].
  case_decide as Hk.
  - intros [= ->]. subst. by left.
  - intros ?. right. by apply IH.
Qed.

Lemma elem_of_concat {A} (x : A) (ls : list (list A)) :
  x ∈ concat ls ↔ ∃ l, l ∈ ls ∧ x ∈ l.
Proof.
  induction ls as [|l ls IH]; simpl.
  - rewrite elem_of_nil. split; [done|]. by intros (? & ?%elem_of_nil & _).
  - rewrite elem_of_app, IH. split.
    + intros [?|(l' & ? & ?)]; [exists l|exists l']; split; auto;
        [by left|by right].
    + intros (l' & [->|?]%elem_of_cons & ?); [by left|right; by exists l'].
Qed.

(** A name of a universe has a version in one of the two views. *)
Lemma names_of_get_versions (manifests : dict Manifest) img x :
  x ∈ names_of (get_packages manifests) img →
  x ∈ dict_keys (get_versions manifests).
Proof.
  unfold names_of. rewrite elem_of_list_to_set.
  destruct (dict_get (get_packages manifests) img) as [t|] eqn:Ht;
    [|by intros ?%elem_of_nil].
  simpl. intros Hx. apply get_versions_keys.
  unfold label_entries, dict_keys in *.
  apply list_elem_of_fmap in Hx as ([x' v] & -> & Hx).
  apply list_elem_of_fmap. exists (x', v). split; [done|].
  apply elem_of_concat. exists t. split; [|done].
  apply dict_get_elem_of in Ht. apply list_elem_of_fmap. by exists (img, t).
Qed.

Lemma generate_changelog_result
    (re_compile : string → option (string → bool)) (o : SetOrder)
    (inspect_image : string → option Manifest)
    (git_log : string → string → option string)
    (format_created : string → option string)
    (handwritten : option string) (target : string)
    (pretty workdir : option string) (prev_manifests manifests : dict Manifest)
    (upstream_curr upstream_prev : option (dict Manifest)) :
  match get_tags re_compile o target manifests with
  | Ok (prev, curr) =>
      ∃ changelog,
        generate_changelog re_compile o inspect_image git_log format_created
          handwritten target pretty workdir prev_manifests manifests
          upstream_curr upstream_prev
        = Ok (CHANGELOG_TITLE curr
                (if truthy pretty then default "" pretty
                 else generate_pretty target curr manifests),
              changelog)
  | Raise e =>
      generate_changelog re_compile o inspect_image git_log format_created
        handwritten target pretty workdir prev_manifests manifests
        upstream_curr upstream_prev
      = Raise e
  end.
Proof.
  unfold generate_changelog. rewrite get_package_groups_shape.
  destruct (get_tags re_compile o target manifests) as [[prev curr]|e];
    [|done].
  cbn [mbind result_bind].
  set (common := sorted (iter o _)).
  rewrite (calculate_changes_Ok common).
  { cbn [mbind result_bind]. case_decide; eexists; reflexivity. }
  intros x [Hcl Hnone]%elem_of_added.
  apply classified_elem_of in Hcl as [Hx _].
  unfold common in Hx. rewrite elem_of_sorted, elem_of_iter in Hx.
  destruct (proj2 (group_loops_disjoint o get_images
                     (get_package_groups_pkg o (get_packages manifests)
                        (get_packages prev_manifests)) "kde" x))
    as (i & s & _ & Hs & Hxs); [by left|].
  apply lookup_pkg_table in Hs as [_ ->].
  unfold variant_universe in Hxs.
  apply elem_of_union in Hxs as [Hin|Hin]; apply names_of_get_versions in Hin.
  - by apply dict_keys_get_Some.
  - apply dict_keys_get_Some in Hin as [? ?]. congruence.
Qed.

(** X12.  On manifests whose package label maps package names to version
    strings or does not decode (the manifests of type [Manifest]; on a label
    of another shape [get_versions] raises, as [get_versions_decoded]
    shows), rendering succeeds exactly when the tag selection on the current
    manifests succeeds, whatever the upstream manifests, the registry and
    the commit log are: it raises the exception of [get_tags], and otherwise
    returns a document whose title is the current tag, a colon and the
    pretty name. *)
Theorem generate_changelog_fails_only_on_tags
    (re_compile : string → option (string → bool)) (o : SetOrder)
    (inspect_image : string → option Manifest)
    (git_log : string → string → option string)
    (format_created : string → option string)
    (handwritten : option string) (target : string)
    (pretty workdir : option string) (prev_manifests manifests : dict Manifest)
    (upstream_curr upstream_prev : option (dict Manifest)) :
  match get_tags re_compile o target manifests with
  | Ok (prev, curr) =>
      ∃ changelog,
        generate_changelog re_compile o inspect_image git_log format_created
          handwritten target pretty workdir prev_manifests manifests
          upstream_curr upstream_prev
        = Ok (CHANGELOG_TITLE curr
                (if truthy pretty then default "" pretty
                 else generate_pretty target curr manifests),
              changelog)
  | Raise e =>
      generate_changelog re_compile o inspect_image git_log format_created
        handwritten target pretty workdir prev_manifests manifests
        upstream_curr upstream_prev
      = Raise e
  end.
Proof. apply generate_changelog_result. Qed.

(** *** The commit section *)

Lemma get_commits_rows_raise (lines : list string) (out line : string) :
  line ∈ lines → line ≠ "" → 4 < length (str_split line "|") →
  ∃ e, get_commits_rows lines out = Raise e.
Proof.
  revert out. induction lines as [|commit lines IH]; intros out Hin Hne Hlen.
  { by apply elem_of_nil in Hin. }
  cbn [get_commits_rows].
  destruct (decide (commit = "")) as [->|Hc].
  { apply IH; [|done..]. by apply elem_of_cons in Hin as [->|?]. }
  destruct (decide (length (str_split commit "|") < 4)) as [Hshort|Hlong].
  { apply IH; [|done..]. apply elem_of_cons in Hin as [->|?]; [lia|done]. }
  destruct (str_split commit "|") as [|f1 [|f2 [|f3 [|f4 [|f5 fs]]]]] eqn:Hs;
    try (by eexists).
  assert (line ∈ lines) as Hin'.
  { apply elem_of_cons in Hin as [->|?]; [|done].
    rewrite Hs in Hlen. simpl in Hlen. lia. }
  destruct (startswith (str_lower f4) "merge"); by apply IH.
Qed.

Lemma get_commits_rows_skip (l1 l2 : list string) (line out : string) :
  commit_skipped line →
  get_commits_rows (l1 ++ line :: l2) out = get_commits_rows (l1 ++ l2) out.
Proof.
  intros Hskip. revert out. induction l1 as [|commit l1 IH]; intros out.
  - cbn [app get_commits_rows].
    destruct Hskip as [->|[Hshort|(h & sh & a & subj & Hs & Hm)]]; [done|..].
    + case_decide; [done|]. by rewrite decide_True.
    + case_decide as Hl; [done|]. rewrite Hs. simpl.
      by rewrite Hm.
  - cbn [app get_commits_rows]. case_decide; [apply IH|].
    case_decide; [apply IH|].
    destruct (str_split commit "|") as [|f1 [|f2 [|f3 [|f4 [|f5 fs]]]]];
      try done.
    destruct (startswith (str_lower f4) "merge"); apply IH.
Qed.

(** X13.  One commit whose subject holds the field separator [|] empties
    the whole commit section: its line splits into more than four fields,
    the unpacking fails, and [get_commits] returns the empty text whatever
    the other commits are. *)
Theorem get_commits_separator_in_subject
    (git_log : string → string → option string)
    (prev_manifests manifests : dict Manifest) (workdir : option string)
    (log line : string) :
  (∀ wd range, git_log wd range = Some log) →
  line ∈ str_split log "010" → line ≠ "" →
  4 < length (str_split line "|") →
  get_commits git_log prev_manifests manifests workdir = "".
Proof.
  intros Hlog Hin Hne Hlen. unfold get_commits.
  destruct (truthy workdir); [|done]. simpl.
  destruct (next_iter_values prev_manifests) as [pm|]; [|done]. simpl.
  destruct (label_revision pm) as [start|]; [|done]. simpl.
  destruct (next_iter_values manifests) as [m|]; [|done]. simpl.
  destruct (label_revision m) as [finish|]; [|done]. simpl.
  rewrite Hlog.
  destruct (get_commits_rows_raise _ "" line Hin Hne Hlen) as [e ->]. done.
Qed.

Lemma get_commits_separator_in_subject_witness :
  get_commits (λ _ _, Some piped_log)
    [("serpentine", manifest_of_revision "0123456")]
    [("serpentine", manifest_of_revision "89abcde")] (Some ".") = "".
Proof.
  apply (get_commits_separator_in_subject (λ _ _, Some piped_log) _ _ _
           piped_log "aaaa1111|aaaa|Ann|Fix a|b").
  - reflexivity.
  - vm_compute. by left.
  - discriminate.
  - vm_compute. lia.
Defined.

(** X14.  Blank lines, lines with fewer than four fields and merge commits
    (a subject that starts with "merge", in any mix of upper and lower case)
    add nothing to the commit rows: the rows are those of the log without
    such a line. *)
Theorem get_commits_rows_skips_merges (l1 l2 : list string)
    (line out : string) :
  commit_skipped line →
  get_commits_rows (l1 ++ line :: l2) out = get_commits_rows (l1 ++ l2) out.
Proof. apply get_commits_rows_skip. Qed.

Lemma get_commits_rows_skips_merges_witness :
  get_commits_rows
    (["aaaa1111|aaaa|Ann|Fix thing"]
     ++ "bbbb2222|bbbb|Bob|MERGE branch x" :: ["cccc3333|cccc|Cy|Add stuff"]) ""
  = get_commits_rows
      (["aaaa1111|aaaa|Ann|Fix thing"] ++ ["cccc3333|cccc|Cy|Add stuff"]) "".
Proof.
  apply (get_commits_rows_skips_merges ["aaaa1111|aaaa|Ann|Fix thing"]
           ["cccc3333|cccc|Cy|Add stuff"] "bbbb2222|bbbb|Bob|MERGE branch x").
  right. right. exists "bbbb2222", "bbbb", "Bob", "MERGE branch x".
  split; reflexivity.
Defined.

(** *** Placeholder substitution *)

Lemma str_replace_absent (s old new : string) :
  contains s old = false → str_replace s old new = s.
Proof.
  destruct old as [|a old].
  { intros Hc. destruct s; simpl in Hc; discriminate. }
  unfold str_replace. induction s as [|c s IH]; [done|].
  cbn [contains str_replace_go].
  intros [Hs Hc]%orb_false_elim. rewrite Hs. by rewrite IH.
Qed.

Lemma startswith_app (old b : string) : startswith (old +:+ b) old = true.
Proof.
  induction old as [|a old IH]; [by destruct b|].
  change (String a old +:+ b) with (String a (old +:+ b)).
  cbn [startswith]. by rewrite Ascii.eqb_refl.
Qed.

Lemma str_replace_go_skip (old new s1 b : string) :
  str_replace_go old new (String.length s1) (s1 +:+ b)
  = str_replace_go old new 0 b.
Proof.
  induction s1 as [|c s1 IH]; [done|].
  change (String c s1 +:+ b) with (String c (s1 +:+ b)).
  cbn [String.length str_replace_go]. apply IH.
Qed.

Lemma str_replace_found (a : ascii) (old new b : string) :
  str_replace (String a old +:+ b) (String a old) new
  = new +:+ str_replace b (String a old) new.
Proof.
  unfold str_replace.
  change (String a old +:+ b) with (String a (old +:+ b)).
  cbn [str_replace_go].
  change (String a (old +:+ b)) with (String a old +:+ b).
  rewrite startswith_app. cbn [String.length].
  rewrite Nat.sub_1_r. cbn [Nat.pred]. by rewrite str_replace_go_skip.
Qed.

Lemma str_replace_before (x : string) (a : ascii) (old new rest : string) :
  contains x (String a "") = false →
  str_replace (x +:+ rest) (String a old) new
  = x +:+ str_replace rest (String a old) new.
Proof.
  unfold str_replace. induction x as [|c x IH]; [done|].
  cbn [contains startswith]. intros [Hc Hx]%orb_false_elim.
  change (String c x +:+ rest) with (String c (x +:+ rest)).
  cbn [str_replace_go startswith].
  destruct (Ascii.eqb a c); [by destruct x|].
  change (String c x +:+ ?r) with (String c (x +:+ r)). by rewrite IH.
Qed.

(** X15.  The substitution of a package placeholder.  A text in which the
    placeholder of the package does not occur is left as it is.  In a text
    that has the placeholder after a part without any opening brace, that
    part is kept, the placeholder becomes the version, or the previous
    version, an arrow and the version when the version has changed, and the
    substitution goes on in the rest. *)
Theorem replace_pkgrel_placeholder (prev_versions : dict string)
    (pkg v : string) :
  let shown :=
    match dict_get prev_versions pkg with
    | None => v
    | Some p => if decide (p = v) then v else PATTERN_PKGREL_CHANGED p v
    end in
  (∀ text, contains text ("{pkgrel:" +:+ pkg +:+ "}") = false →
           replace_pkgrel prev_versions text (pkg, v) = text) ∧
  (∀ before rest,
     contains before "{" = false →
     replace_pkgrel prev_versions
       (before +:+ ("{pkgrel:" +:+ pkg +:+ "}") +:+ rest) (pkg, v)
     = before +:+ shown +:+ replace_pkgrel prev_versions rest (pkg, v)).
Proof.
  intros shown.
  assert (∀ text, replace_pkgrel prev_versions text (pkg, v)
                  = str_replace text ("{pkgrel:" +:+ pkg +:+ "}") shown)
    as Heq.
  { intros text. unfold replace_pkgrel, shown. rewrite dict_mem_get.
    destruct (dict_get prev_versions pkg) as [p|]; simpl; [|done].
    case_bool_decide as Hp; case_decide; try done; congruence. }
  split.
  - intros text Habs. rewrite Heq. by apply str_replace_absent.
  - intros before rest Hb. rewrite !Heq.
    change ("{pkgrel:" +:+ pkg +:+ "}")
      with (String "{" ("pkgrel:" +:+ pkg +:+ "}")).
    by rewrite str_replace_before, str_replace_found.
Qed.

Lemma replace_pkgrel_placeholder_witness :
  replace_pkgrel [("kernel", "6.1")]
    ("| **Kernel** | " +:+ ("{pkgrel:" +:+ "kernel" +:+ "}") +:+ " |")
    ("kernel", "6.2")
  = "| **Kernel** | " +:+ PATTERN_PKGREL_CHANGED "6.1" "6.2"
    +:+ replace_pkgrel [("kernel", "6.1")] " |" ("kernel", "6.2").
Proof.
  apply (proj2 (replace_pkgrel_placeholder [("kernel", "6.1")] "kernel" "6.2")
           "| **Kernel** | " " |").
  reflexivity.
Defined.

(** *** Registry inspection and the driver *)

(** X16.  The retries of [inspect_image]: [skopeo] is run until it
    succeeds, three times at most, with a sleep of [RETRY_WAIT] seconds
    after a failed run except after the third; the output of the first
    successful run is decoded, and nothing is returned when the three runs
    fail. *)
Theorem inspect_image_retries (skopeo : string → nat → option string)
    (json_loads : string → option Manifest) (ref : string) :
  inspect_image_events skopeo json_loads ref =
  match skopeo ref 0, skopeo ref 1, skopeo ref 2 with
  | Some output, _, _ => (json_loads output, [RunSkopeo ref])
  | None, Some output, _ =>
      (json_loads output, [RunSkopeo ref; Sleep RETRY_WAIT; RunSkopeo ref])
  | None, None, Some output =>
      (json_loads output,
       [RunSkopeo ref; Sleep RETRY_WAIT; RunSkopeo ref; Sleep RETRY_WAIT;
        RunSkopeo ref])
  | None, None, None =>
      (None,
       [RunSkopeo ref; Sleep RETRY_WAIT; RunSkopeo ref; Sleep RETRY_WAIT;
        RunSkopeo ref])
  end.
Proof.
  unfold inspect_image_events, RETRIES. cbn [inspect_image_loop].
  destruct (skopeo ref 0); [done|].
  destruct (skopeo ref 1); [done|].
  by destruct (skopeo ref 2).
Qed.

(** X17.  [get_manifests] returns, in the order of [IMAGES], the images
    whose inspection succeeds, each with its manifest; an image whose
    inspection fails is left out. *)
Theorem get_manifests_successes (inspect_image : string → option Manifest)
    (target : string) :
  get_manifests inspect_image target =
  omap (λ img, pair img
                 <$> inspect_image (REGISTRY +:+ img +:+ ":" +:+ target))
       IMAGES.
Proof.
  unfold get_manifests, get_images, IMAGES. cbn [fmap list_fmap foldl omap].
  cbn [get_images_row list_omap].
  destruct (inspect_image (REGISTRY +:+ BASE_IMAGE_NAME +:+ ":" +:+ target));
    destruct (inspect_image
                (REGISTRY +:+ (BASE_IMAGE_NAME +:+ "-nvidia") +:+ ":"
                 +:+ target));
    reflexivity.
Qed.



Lemma rev_app_app (s a : string) :
  String.rev_app s a = String.rev_app s "" +:+ a.
Proof.
  revert a. induction s as [|c s IH]; intros a; [done|].
  cbn [String.rev_app]. rewrite (IH (String c a)), (IH (String c "")).
  by rewrite append_assoc.
Qed.

Lemma rev_cons_app (c : ascii) (cur f : string) :
  String.rev (String c cur) +:+ f = String.rev cur +:+ String c f.
Proof.
  unfold String.rev. cbn [String.rev_app].
  by rewrite (rev_app_app cur (String c "")), append_assoc.
Qed.

Lemma contains_char_cons (c sep : ascii) (f : string) :
  contains (String c f) (String sep "") = false →
  Ascii.eqb c sep = false ∧ contains f (String sep "") = false.
Proof.
  cbn [contains startswith]. intros [Hc Hf]%orb_false_elim.
  split; [|done]. rewrite Ascii.eqb_sym.
  destruct (Ascii.eqb sep c); [by destruct f|done].
Qed.

(** A text without the separator is one field. *)
Lemma str_split_go_one_field (sep : ascii) (cur f : string) :
  contains f (String sep "") = false →
  str_split_go sep cur f = [String.rev cur +:+ f].
Proof.
  revert cur. induction f as [|c f IH]; intros cur Hf.
  - cbn [str_split_go]. by rewrite append_nil_r.
  - apply contains_char_cons in Hf as [Hc Hf].
    cbn [str_split_go]. rewrite Hc, IH by done. by rewrite rev_cons_app.
Qed.

(** The last field of a text is what follows its last separator. *)
Lemma str_split_go_last (sep : ascii) (cur p f : string) :
  contains f (String sep "") = false →
  last (str_split_go sep cur (p +:+ String sep f)) = Some f.
Proof.
  intros Hf. revert cur. induction p as [|c p IH]; intros cur.
  - change ("" +:+ ?s) with s. cbn [str_split_go].
    rewrite Ascii.eqb_refl, str_split_go_one_field by done. done.
  - change (String c p +:+ ?s) with (String c (p +:+ s)).
    cbn [str_split_go]. destruct (Ascii.eqb c sep); [|apply IH].
    specialize (IH ""). destruct (str_split_go sep "" _); [done|].
    by rewrite last_cons, IH.
Qed.

(** X19.  The target of [main].  Without an argument it is "stable"; of an
    argument it is the part after the last slash, so a leading path such as
    [refs/heads/] is dropped; the name "main" stands for "stable"; and the
    target holds no slash. *)
Theorem main_target_strips_path (path name : string) :
  contains name "/" = false →
  main_target None = "stable" ∧
  main_target (Some name) = (if String.eqb name "main" then "stable" else name) ∧
  main_target (Some (path +:+ "/" +:+ name))
    = (if String.eqb name "main" then "stable" else name) ∧
  contains (main_target (Some (path +:+ "/" +:+ name))) "/" = false.
Proof.
  intros Hname.
  assert (main_target (Some (path +:+ "/" +:+ name))
          = (if String.eqb name "main" then "stable" else name)) as Hpath.
  { unfold main_target, str_split.
    change ("/" +:+ name) with (String "/" name).
    by rewrite str_split_go_last. }
  split; [done|]. split; [|split; [done|]].
  - unfold main_target, str_split.
    by rewrite str_split_go_one_field.
  - rewrite Hpath. by destruct (String.eqb name "main").
Qed.

Lemma main_target_strips_path_witness :
  main_target None = "stable" ∧
  main_target (Some "main") = "stable" ∧
  main_target (Some ("refs/heads" +:+ "/" +:+ "main")) = "stable" ∧
  contains (main_target (Some ("refs/heads" +:+ "/" +:+ "main"))) "/" = false.
Proof.
  apply (main_target_strips_path "refs/heads" "main"). reflexivity.
Defined.

(** *** The pretty name and the upstream section *)

Lemma rev_append (s t : string) :
  String.rev (s +:+ t) = String.rev t +:+ String.rev s.
Proof.
  induction s as [|c s IH].
  - change ("" +:+ t) with t. by rewrite append_nil_r.
  - change (String c s +:+ t) with (String c (s +:+ t)).
    unfold String.rev in *. cbn [String.rev_app].
    rewrite (rev_app_app (s +:+ t)), IH, append_assoc.
    by rewrite <-(rev_app_app s).
Qed.

Lemma rev_involutive (s : string) : String.rev (String.rev s) = s.
Proof.
  induction s as [|c s IH]; [done|].
  change (String c s) with (String c "" +:+ s) at 1.
  by rewrite rev_append, rev_append, IH.
Qed.

Lemma strip_dot_digits_one (d : ascii) (r : string) :
  is_digit d = true → strip_dot_digits (String d (String "." r)) = Some r.
Proof. intros Hd. cbn [strip_dot_digits]. by rewrite Hd. Qed.

Lemma strip_dot_digits_two (d1 d2 : ascii) (r : string) :
  is_digit d1 = true → is_digit d2 = true →
  strip_dot_digits (String d2 (String d1 (String "." r))) = Some r.
Proof.
  intros H1 H2.
  destruct d1 as [[] [] [] [] [] [] [] []]; try discriminate H1;
    cbn [strip_dot_digits]; by rewrite H2.
Qed.

(** X20.  The pretty name drops the last component of a tag when it is a
    dot and one or two digits, whatever the digits: not only a [.0], also
    the [.9] of "23.9" goes. *)
Theorem sub_patch_suffix_last_component (s : string) (d1 d2 : ascii) :
  is_digit d1 = true → is_digit d2 = true →
  sub_patch_suffix (s +:+ String "." (String d1 "")) = s ∧
  sub_patch_suffix (s +:+ String "." (String d1 (String d2 ""))) = s.
Proof.
  intros H1 H2. unfold sub_patch_suffix. split.
  - rewrite rev_append.
    change (String.rev (String "." (String d1 "")) +:+ String.rev s)
      with (String d1 (String "." (String.rev s))).
    destruct d1 as [[] [] [] [] [] [] [] []]; try discriminate H1;
      lazy beta iota; rewrite strip_dot_digits_one by done;
      by rewrite rev_involutive.
  - rewrite rev_append.
    change (String.rev (String "." (String d1 (String d2 ""))) +:+ String.rev s)
      with (String d2 (String d1 (String "." (String.rev s)))).
    destruct d2 as [[] [] [] [] [] [] [] []]; try discriminate H2;
      lazy beta iota; rewrite strip_dot_digits_two by done;
      by rewrite rev_involutive.
Qed.

Lemma sub_patch_suffix_last_component_witness :
  sub_patch_suffix ("23" +:+ String "." (String "9" "")) = "23" ∧
  sub_patch_suffix ("23" +:+ String "." (String "9" (String "0" ""))) = "23".
Proof.
  apply (sub_patch_suffix_last_component "23" "9" "0"); reflexivity.
Defined.

Lemma get_tags_raises_below_two re_compile o target manifests :
  ¬ two_qualify re_compile target manifests →
  ∃ e, get_tags re_compile o target manifests = Raise e.
Proof.
  intros Hnot.
  destruct (get_tags_selected re_compile o target manifests)
    as [(e & He & _)|(Q & HQ & Heq)]; [by exists e|].
  rewrite Heq. simpl. case_decide as Hlen; [|by eexists].
  destruct Hnot.
  apply two_elements_length in Hlen as (t1 & t2 & Hne & H1%HQ & H2%HQ).
  by exists t1, t2.
Qed.

(** X21.  The upstream section degrades to the empty text: when no
    upstream manifest is given and the registry has none, and when fewer
    than two upstream tags qualify, the tag selection failing there without
    failing the document. *)
Theorem get_upstream_section_degrades
    (re_compile : string → option (string → bool)) (o : SetOrder)
    (inspect_image : string → option Manifest)
    (format_created : string → option string) (target : string)
    (upstream_curr upstream_prev : option (dict Manifest)) :
  or_upstream inspect_image upstream_curr target = [] ∨
  ¬ two_qualify re_compile target
      (or_upstream inspect_image upstream_curr target) →
  get_upstream_section re_compile o inspect_image format_created target
    upstream_curr upstream_prev = "".
Proof.
  unfold get_upstream_section. intros [->|Hnot]; [done|].
  destruct (or_upstream inspect_image upstream_curr target) as [|m ms];
    [done|].
  by destruct (get_tags_raises_below_two re_compile o target (m :: ms) Hnot)
    as [e ->].
Qed.

Lemma get_upstream_section_degrades_witness :
  get_upstream_section no_re elements_order (λ _, None) (λ _, None) "stable"
    None None = "".
Proof.
  apply (get_upstream_section_degrades no_re elements_order (λ _, None)
           (λ _, None) "stable" None None).
  left. reflexivity.
Defined.

(** *** Package labels of any shape *)

Lemma get_packages_decoded_labels_of (manifests : dict Manifest) :
  get_packages_decoded (labels_of manifests) =
  (λ '(img, pkgs), (img, PObject ((λ '(pkg, v), (pkg, JString v)) <$> pkgs)))
    <$> get_packages manifests.
Proof.
  unfold get_packages_decoded, get_packages, labels_of.
  change (@nil (string * packages_value)) with
    ((λ '(img, pkgs),
        (img, PObject ((λ '(pkg, v), (pkg, JString v)) <$> pkgs)))
       <$> (@nil (string * dict string))).
  generalize (@nil (string * dict string)).
  induction manifests as [|[img m] ms IH]; intros acc; [done|].
  rewrite fmap_cons. cbn [foldl]. rewrite <-IH. f_equal.
  unfold label_of. destruct (rechunk_packages m) as [pkgs|]; [|done].
  simpl. induction acc as [|[k v] acc IHacc]; [done|].
  rewrite fmap_cons. cbn [dict_set]. case_decide; [done|].
  by rewrite fmap_cons, IHacc.
Qed.

Lemma get_versions_entries_strings (versions pkgs : dict string) :
  get_versions_entries versions ((λ '(pkg, v), (pkg, JString v)) <$> pkgs)
  = Ok (foldl (λ versions '(pkg, v),
                 dict_set versions pkg (sub_FEDORA_PATTERN v))
              versions pkgs).
Proof.
  unfold get_versions_entries. revert versions.
  induction pkgs as [|[pkg v] pkgs IH]; intros versions; [done|].
  rewrite fmap_cons. cbn [foldl mbind result_bind]. apply IH.
Qed.

Lemma get_versions_entries_raise (e : exn) (entries : dict json_value) :
  foldl (λ acc '(pkg, v),
           versions ← acc;
           match v with
           | JString v => Ok (dict_set versions pkg (sub_FEDORA_PATTERN v))
           | JOther => Raise TypeError
           end)
        (Raise e) entries = Raise e.
Proof. induction entries as [|[pkg v] entries IH]; [done|apply IH]. Qed.

Lemma get_versions_entries_result (versions : dict string)
    (entries : dict json_value) :
  if string_mapping (PObject entries)
  then ∃ versions', get_versions_entries versions entries = Ok versions'
  else get_versions_entries versions entries = Raise TypeError.
Proof.
  unfold get_versions_entries. revert versions.
  induction entries as [|[pkg [v|]] entries IH]; intros versions.
  - by eexists.
  - cbn [foldl mbind result_bind]. apply IH.
  - cbn [foldl mbind result_bind string_mapping forallb andb].
    apply get_versions_entries_raise.
Qed.

Lemma get_versions_loop_raise e values :
  get_versions_loop (Raise e) values = Raise e.
Proof. induction values as [|p values IH]; [done|apply IH]. Qed.

Lemma get_versions_loop_Ok versions values :
  (∀ p, p ∈ values → string_mapping p = true) →
  ∃ versions', get_versions_loop (Ok versions) values = Ok versions'.
Proof.
  revert versions. induction values as [|p values IH]; intros versions Hall.
  { by eexists. }
  assert (string_mapping p = true) as Hp by (apply Hall; by left).
  destruct p as [entries|]; [|done].
  pose proof (get_versions_entries_result versions entries) as Hres.
  rewrite Hp in Hres. destruct Hres as [versions' Heq].
  unfold get_versions_loop. cbn [foldl mbind result_bind]. rewrite Heq.
  apply IH. intros q Hq. apply Hall. by right.
Qed.

Lemma get_versions_loop_first versions l1 p l2 :
  (∀ q, q ∈ l1 → string_mapping q = true) → string_mapping p = false →
  get_versions_loop (Ok versions) (l1 ++ p :: l2)
  = Raise (match p with
           | PObject _ => TypeError
           | POther => AttributeError
           end).
Proof.
  intros Hall Hp.
  destruct (get_versions_loop_Ok versions l1 Hall) as [versions' Heq].
  unfold get_versions_loop in *. rewrite foldl_app, Heq.
  cbn [foldl mbind result_bind].
  destruct p as [entries|].
  - pose proof (get_versions_entries_result versions' entries) as Hres.
    rewrite Hp in Hres. rewrite Hres. apply get_versions_loop_raise.
  - apply get_versions_loop_raise.
Qed.

Lemma first_not_mapping (values : list packages_value) :
  (∀ p, p ∈ values → string_mapping p = true) ∨
  ∃ l1 p l2, values = l1 ++ p :: l2 ∧
    (∀ q, q ∈ l1 → string_mapping q = true) ∧ string_mapping p = false.
Proof.
  induction values as [|p values [IH|(l1 & q & l2 & -> & Hall & Hq)]].
  - left. by intros p ?%elem_of_nil.
  - destruct (string_mapping p) eqn:Hp.
    + left. intros q [->|?]%elem_of_cons; auto.
    + right. exists [], p, values. split; [done|]. split; [|done].
      by intros q ?%elem_of_nil.
  - destruct (string_mapping p) eqn:Hp.
    + right. exists (p :: l1), q, l2. split; [done|]. split; [|done].
      intros q' [->|?]%elem_of_cons; auto.
    + right. exists [], p, (l1 ++ q :: l2). split; [done|]. split; [|done].
      by intros q' ?%elem_of_nil.
Qed.

Lemma get_packages_decoded_unique (labels : dict (option packages_value)) :
  NoDup (dict_keys labels) →
  get_packages_decoded labels
  = omap (λ il : string * option packages_value, pair il.1 <$> il.2) labels.
Proof.
  unfold get_packages_decoded.
  assert (∀ ms acc, NoDup (dict_keys acc ++ dict_keys ms) →
    foldl (λ packages '(img, label),
             match label with
             | Some pkgs => dict_set packages img pkgs
             | None => packages
             end) acc ms
    = acc ++ omap (λ il : string * option packages_value,
                     pair il.1 <$> il.2) ms) as Hgen.
  { induction ms as [|[k [p|]] ms IH]; intros acc Hnd.
    - by rewrite app_nil_r.
    - cbn [foldl omap list_omap fmap option_fmap option_map].
      unfold dict_keys in *. rewrite fmap_cons in Hnd. simpl in Hnd.
      assert (k ∉ acc.*1) as Hk.
      { apply NoDup_app in Hnd as (_ & Hdisj & _). intros Hin.
        apply (Hdisj k Hin). by left. }
      rewrite (dict_set_fresh acc k p Hk), IH.
      + by rewrite <-(assoc_L (++)).
      + rewrite fmap_app. simpl. rewrite <-(assoc_L (++)). exact Hnd.
    - cbn [foldl omap list_omap fmap option_fmap option_map].
      apply IH. unfold dict_keys in *. rewrite fmap_cons in Hnd.
      simpl in Hnd. apply NoDup_app in Hnd as (Ha & Hdisj & Hm).
      apply NoDup_cons in Hm as [_ Hm]. apply NoDup_app.
      split; [done|]. split; [|done].
      intros x Hx Hx'. apply (Hdisj x Hx). by right. }
  intros Hnd. by rewrite (Hgen labels []).
Qed.

(** X22.  [get_versions] and a package label of another shape.  On the
    labels of the manifests of type [Manifest], which map package names to
    version strings or do not decode, it returns what [get_versions] returns
    on the manifests.  In general it returns exactly when every value that
    [get_packages] stored maps package names to strings; otherwise the first
    stored value that does not decides the exception: [AttributeError] for a
    value that is no object, [TypeError] for an object with a version that
    is no string.  [get_packages] stores a decoded value whatever its shape,
    so with one label per image one such label is enough to make
    [get_versions] raise. *)
Theorem get_versions_decoded_errors :
  (∀ manifests : dict Manifest,
     get_versions_decoded (labels_of manifests)
     = Ok (get_versions manifests)) ∧
  (∀ labels,
     (∃ versions, get_versions_decoded labels = Ok versions) ↔
     ∀ p, p ∈ dict_values (get_packages_decoded labels) →
          string_mapping p = true) ∧
  (∀ labels l1 p l2,
     dict_values (get_packages_decoded labels) = l1 ++ p :: l2 →
     (∀ q, q ∈ l1 → string_mapping q = true) → string_mapping p = false →
     get_versions_decoded labels
     = Raise (match p with
              | PObject _ => TypeError
              | POther => AttributeError
              end)) ∧
  (∀ labels img p,
     NoDup (dict_keys labels) → (img, Some p) ∈ labels →
     string_mapping p = false →
     get_versions_decoded labels = Raise TypeError ∨
     get_versions_decoded labels = Raise AttributeError).
Proof.
  assert (∀ labels l1 p l2,
     dict_values (get_packages_decoded labels) = l1 ++ p :: l2 →
     (∀ q, q ∈ l1 → string_mapping q = true) → string_mapping p = false →
     get_versions_decoded labels
     = Raise (match p with
              | PObject _ => TypeError
              | POther => AttributeError
              end)) as Hfirst.
  { intros labels l1 p l2 Heq Hall Hp.
    unfold get_versions_decoded. rewrite Heq. by apply get_versions_loop_first. }
  assert (∀ labels,
     (∃ versions, get_versions_decoded labels = Ok versions) ↔
     ∀ p, p ∈ dict_values (get_packages_decoded labels) →
          string_mapping p = true) as Hiff.
  { intros labels. split.
    - intros [versions Hok].
      destruct (first_not_mapping (dict_values (get_packages_decoded labels)))
        as [Hall|(l1 & p & l2 & Heq & Hall & Hp)]; [done|].
      rewrite (Hfirst labels l1 p l2 Heq Hall Hp) in Hok. discriminate.
    - apply (get_versions_loop_Ok []). }
  split; [|split; [done|split; [done|]]].
  - intros manifests.
    unfold get_versions_decoded, get_versions_loop, get_versions.
    rewrite get_packages_decoded_labels_of.
    generalize (get_packages manifests). generalize (@nil (string * string)).
    intros acc tables. revert acc.
    induction tables as [|[img pkgs] tables IH]; intros acc; [done|].
    rewrite fmap_cons. unfold dict_values in *. rewrite !fmap_cons.
    cbn [foldl mbind result_bind snd].
    rewrite get_versions_entries_strings. apply IH.
  - intros labels img p Hnd Hin Hp.
    assert (p ∈ dict_values (get_packages_decoded labels)) as Hstored.
    { rewrite get_packages_decoded_unique by done.
      unfold dict_values. apply list_elem_of_fmap. exists (img, p).
      split; [done|]. apply list_elem_of_omap. by exists (img, Some p). }
    destruct (first_not_mapping (dict_values (get_packages_decoded labels)))
      as [Hall|(l1 & q & l2 & Heq & Hall & Hq)].
    { rewrite (Hall p Hstored) in Hp. discriminate. }
    rewrite (Hfirst labels l1 q l2 Heq Hall Hq). destruct q; auto.
Qed.

Lemma get_versions_decoded_errors_witness :
  get_versions_decoded number_label = Raise TypeError.
Proof.
  apply (proj1 (proj2 (proj2 get_versions_decoded_errors)) number_label []
           (PObject [("kernel", JString "6.1-1.fc41"); ("mesa", JOther)]) []).
  - reflexivity.
  - by intros q ?%elem_of_nil.
  - reflexivity.
Defined.
